(** * MedEye detection pipeline: decoder, suppression, cache, orchestrator, telemetry

    A shallow embedding of the detection code of [static/js/main.js]
    (module [Main]) and [static/js/yolo-worker.js] (module [Worker]),
    followed by the properties checked against it.

    JavaScript numbers are IEEE 754 binary64 values.  They are modelled
    by [spec_float] with the Standard Library's executable binary64
    operations ([prec = 53], [emax = 1024]), so every arithmetic step
    below rounds exactly as the script does. *)

From Stdlib Require Import ZArith NArith String Ascii DecimalString List Bool Lia.
From Stdlib Require Import Permutation DecimalN.
From Stdlib Require Import Floats.SpecFloat.
Import ListNotations.

Set Implicit Arguments.

(* ================================================================== *)
(** * JavaScript numbers *)
(* ================================================================== *)

Module JS.

Definition num : Type := spec_float.

Definition prec : Z := 53.
Definition emax : Z := 1024.

Definition NaN : num := S754_nan.
Definition pzero : num := S754_zero false.

Definition add : num -> num -> num := SFadd prec emax.
Definition sub : num -> num -> num := SFsub prec emax.
Definition mul : num -> num -> num := SFmul prec emax.
Definition div : num -> num -> num := SFdiv prec emax.

(** [a > b] and [a < b]; both are [false] as soon as one side is NaN. *)
Definition gt (a b : num) : bool := SFltb b a.
Definition lt (a b : num) : bool := SFltb a b.

(** An integer as a number (exact below [2^53], rounded above). *)
Definition of_Z (z : Z) : num := binary_normalize prec emax z 0 false.
Definition of_nat (n : nat) : num := of_Z (Z.of_nat n).
Definition of_N (n : N) : num := of_Z (Z.of_N n).

(** The decimal literal [m / 10^k], for [|m| < 2^53] and [k <= 22]:
    both operands are then exact and the division rounds once, which is
    the value the literal denotes in the script. *)
Definition dec (m : Z) (k : nat) : num := div (of_Z m) (of_Z (10 ^ Z.of_nat k)).

(** [Math.max(a, b)]: NaN if either argument is NaN, and [+0] is
    larger than [-0]. *)
Definition Math_max (a b : num) : num :=
  match SFcompare a b with
  | None => NaN
  | Some Gt => a
  | Some Lt => b
  | Some Eq =>
      match a, b with
      | S754_zero sa, S754_zero sb => S754_zero (sa && sb)
      | _, _ => a
      end
  end.

(** [Math.min(a, b)]: NaN if either argument is NaN, and [-0] is
    smaller than [+0]. *)
Definition Math_min (a b : num) : num :=
  match SFcompare a b with
  | None => NaN
  | Some Lt => a
  | Some Gt => b
  | Some Eq =>
      match a, b with
      | S754_zero sa, S754_zero sb => S754_zero (sa || sb)
      | _, _ => a
      end
  end.

Definition is_zero (a : num) : bool :=
  match a with S754_zero _ => true | _ => false end.

Definition is_nan (a : num) : bool :=
  match a with S754_nan => true | _ => false end.

(** A synchronous computation either completes normally or throws; an
    awaited promise either resolves or rejects.  Both are a
    [completion]. *)
Inductive completion (A : Type) : Type :=
| Normal (a : A)
| Throw (message : string).
Arguments Throw {A} message.

Definition bind {A B} (c : completion A) (k : A -> completion B) : completion B :=
  match c with
  | Normal a => k a
  | Throw m => Throw m
  end.

(** Reading a property of [undefined]. *)
Definition TypeError : string := "TypeError".

(** [arr.splice(i, 1)]: the element at position [i] is removed and the
    later ones move down by one. *)
Definition splice1 {A} (i : nat) (arr : list A) : list A :=
  firstn i arr ++ skipn (S i) arr.

(** ** [Map] with string keys

    A [Map] iterates in insertion order; the entries are kept in that
    order, oldest first, with no key twice. *)
Section MapOps.
Variable V : Type.

Definition Map : Type := list (string * V).

Fixpoint map_get (k : string) (m : Map) : option V :=
  match m with
  | [] => None
  | (k', v) :: rest => if String.eqb k' k then Some v else map_get k rest
  end.

Definition map_has (k : string) (m : Map) : bool :=
  match map_get k m with Some _ => true | None => false end.

(** [set] on a present key replaces the value where the entry
    stands; on an absent key it appends the entry. *)
Fixpoint map_set (k : string) (v : V) (m : Map) : Map :=
  match m with
  | [] => [(k, v)]
  | (k', v') :: rest =>
      if String.eqb k' k then (k', v) :: rest
      else (k', v') :: map_set k v rest
  end.

Definition map_delete (k : string) (m : Map) : Map :=
  filter (fun e => negb (String.eqb (fst e) k)) m.

Definition map_size (m : Map) : nat := length m.

(** [m.keys().next().value]: [None] is [undefined]. *)
Definition map_firstKey (m : Map) : option string :=
  match m with
  | [] => None
  | (k, _) :: _ => Some k
  end.

Definition map_keys (m : Map) : list string := map fst m.
End MapOps.

(** ** [Number.prototype.toFixed(1)] *)

Definition digits (n : N) : string :=
  NilEmpty.string_of_uint (N.to_uint n).

(** [n] tenths written with one fraction digit. *)
Definition tenths (n : N) : string :=
  (digits (n / 10) ++ "." ++ digits (n mod 10))%string.

(** For a finite [x = m * 2^e] below [10^21], [toFixed(1)] takes the
    integer [n] with [n / 10] closest to [|x|], the larger one on a
    tie.  From [10^21] on the script would get exponent notation,
    which is not modelled: [None]. *)
Definition toFixed1 (a : num) : option string :=
  match a with
  | S754_nan => Some "NaN"%string
  | S754_infinity false => Some "Infinity"%string
  | S754_infinity true => Some "-Infinity"%string
  | S754_zero _ => Some "0.0"%string
  | S754_finite s m e =>
      let below :=
        match e with
        | Zneg d => (Zpos m <? 10 ^ 21 * 2 ^ Zpos d)%Z
        | _ => (Zpos m * 2 ^ e <? 10 ^ 21)%Z
        end in
      if below then
        let n :=
          match e with
          | Zneg d => ((20 * Zpos m + 2 ^ Zpos d) / 2 ^ (Zpos d + 1))%Z
          | _ => (10 * Zpos m * 2 ^ e)%Z
          end in
        Some ((if s then "-" else EmptyString) ++ tenths (Z.to_N n))%string
      else None
  end.

(** [a || b] on two numbers that are never NaN: [a] unless it is [0]. *)
Definition orElse (a b : N) : N := if (a =? 0)%N then b else a.

(** [Math.round(a)]: the nearest integer, the larger one on a tie;
    NaN, the infinities and the zeros are returned as they are, and a
    negative number that rounds to zero gives [-0].  For a finite
    [a = m * 2^e] with [e < 0], [floor(a + 1/2)] is computed on the
    integers. *)
Definition Math_round (a : num) : num :=
  match a with
  | S754_finite s m (Zneg d) =>
      let signed := if s then Zneg m else Zpos m in
      let n := ((2 * signed + 2 ^ Zpos d) / 2 ^ (Zpos d + 1))%Z in
      if (n =? 0)%Z then S754_zero s else of_Z n
  | _ => a
  end.

End JS.

Declare Scope js_scope.
Delimit Scope js_scope with js.
Notation "a + b" := (JS.add a b) : js_scope.
Notation "a - b" := (JS.sub a b) : js_scope.
Notation "a * b" := (JS.mul a b) : js_scope.
Notation "a / b" := (JS.div a b) : js_scope.
Notation "a >? b" := (JS.gt a b) : js_scope.
Notation "a <? b" := (JS.lt a b) : js_scope.
Notation "x <- c ;; k" := (JS.bind c (fun x => k))
  (at level 61, c at next level, right associativity).

Import JS.

(* ================================================================== *)
(** * Data model *)
(* ================================================================== *)

(** [{x, y, width, height}], the objects handed to [calculateIoU]. *)
Record Box : Type := mkBox {
  x : num;
  y : num;
  width : num;
  height : num
}.

(** The objects pushed by [processYOLOOutput]:
    [{x, y, width, height, score, class}]. *)
Record Detection : Type := mkDetection {
  det_x : num;
  det_y : num;
  det_width : num;
  det_height : num;
  score : num;
  class : nat
}.

(** [MODEL_CONFIG] (the same constants in both scripts). *)
Record Config : Type := mkConfig {
  inputSize : nat;
  scoreThreshold : num;
  iouThreshold : num;
  maxDetections : nat
}.

Definition MODEL_CONFIG : Config :=
  {| inputSize := 640;
     scoreThreshold := dec 25 2;
     iouThreshold := dec 45 2;
     maxDetections := 100 |}.

(** [{ score, idx }], the items sorted at the start of
    [nonMaxSuppression]. *)
Record ScoredIndex : Type := mkScored {
  item_score : num;
  item_idx : nat
}.

(* ================================================================== *)
(** * Code shared by the two scripts, word for word *)
(* ================================================================== *)

Module Shared.

(** [calculateIoU(box1, box2)].  The quotient is returned as computed:
    there is no test on [union]. *)
Definition calculateIoU (box1 box2 : Box) : num :=
  let x1 := Math_max (x box1) (x box2) in
  let y1 := Math_max (y box1) (y box2) in
  let x2 := Math_min (x box1 + width box1)%js (x box2 + width box2)%js in
  let y2 := Math_min (y box1 + height box1)%js (y box2 + height box2)%js in
  let intersection := (Math_max pzero (x2 - x1) * Math_max pzero (y2 - y1))%js in
  let area1 := (width box1 * height box1)%js in
  let area2 := (width box2 * height box2)%js in
  let union := (area1 + area2 - intersection)%js in
  (intersection / union)%js.

(** The two intermediate constants of [calculateIoU], named so that
    statements can speak about them. *)
Definition intersectionArea (box1 box2 : Box) : num :=
  let x1 := Math_max (x box1) (x box2) in
  let y1 := Math_max (y box1) (y box2) in
  let x2 := Math_min (x box1 + width box1)%js (x box2 + width box2)%js in
  let y2 := Math_min (y box1 + height box1)%js (y box2 + height box2)%js in
  (Math_max pzero (x2 - x1) * Math_max pzero (y2 - y1))%js.

Definition unionArea (box1 box2 : Box) : num :=
  (width box1 * height box1 + width box2 * height box2
   - intersectionArea box1 box2)%js.

(** [calculateIoU(boxes[i], boxes[j])]: an index outside [boxes] reads
    [undefined], and [calculateIoU] throws on its first property
    access. *)
Definition calculateIoU_at (boxes : list Box) (i j : nat) : completion num :=
  match nth_error boxes i, nth_error boxes j with
  | Some box1, Some box2 => Normal (calculateIoU box1 box2)
  | _, _ => Throw TypeError
  end.

(** The comparator [(a, b) => b.score - a.score]; [sort] puts [a]
    after [b] when it is positive, and leaves the two in their
    original order when it is zero or NaN. *)
Definition comparator (a b : ScoredIndex) : num :=
  (item_score b - item_score a)%js.

Fixpoint insert (a : ScoredIndex) (sorted : list ScoredIndex) : list ScoredIndex :=
  match sorted with
  | [] => [a]
  | b :: rest =>
      if (comparator a b >? pzero)%js then b :: insert a rest else a :: sorted
  end.

(** [Array.prototype.sort] is stable; for a comparator that is a
    consistent ordering (no NaN score) every stable sort returns the
    list computed here. *)
Fixpoint sort (items : list ScoredIndex) : list ScoredIndex :=
  match items with
  | [] => []
  | a :: rest => insert a (sort rest)
  end.

(** [scores.map((score, idx) => ({ score, idx }))
          .sort((a, b) => b.score - a.score)
          .map(item => item.idx)] *)
Definition sortedIndices (scores : list num) : list nat :=
  map item_idx
    (sort (map (fun p => mkScored (fst p) (snd p))
               (combine scores (seq 0 (length scores))))).

(** ** Decoding, the first half of [processYOLOOutput] *)

(** [output[0][r][i]] for one of the four box rows.  A missing row is
    [undefined] and indexing it throws; a missing column reads
    [undefined], which the arithmetic that follows turns into NaN. *)
Definition boxCell (features : list (list num)) (r i : nat) : completion num :=
  match nth_error features r with
  | None => Throw TypeError
  | Some row => Normal (nth i row NaN)
  end.

(** [output[0][4 + c][i]] inside the class loop, where [c < numClasses]
    and the row is therefore present.  [undefined > maxScore] is
    [false], as [NaN > maxScore] is. *)
Definition classCell (features : list (list num)) (c i : nat) : num :=
  nth i (nth (4 + c) features []) NaN.

(** One turn of [for (let c = 0; c < numClasses; c++)] on the pair
    [(maxScore, maxClass)]. *)
Definition classStep (features : list (list num)) (i : nat)
           (best : num * nat) (c : nat) : num * nat :=
  let score := classCell features c i in
  if (score >? fst best)%js then (score, c) else best.

(** The class loop, from [let maxScore = 0; let maxClass = 0]. *)
Definition bestClass (features : list (list num)) (numClasses i : nat) : num * nat :=
  fold_left (classStep features i) (seq 0 numClasses) (pzero, 0).

Section Decode.
Variable cfg : Config.
Variable features : list (list num).
Variables imgWidth imgHeight : num.

(** The body of [for (let i = 0; i < numDetections; i++)]: the
    detection pushed for anchor [i], if any. *)
Definition decodeAnchor (numClasses i : nat) : completion (option Detection) :=
  x <- boxCell features 0 i ;;
  y <- boxCell features 1 i ;;
  w <- boxCell features 2 i ;;
  h <- boxCell features 3 i ;;
  let '(maxScore, maxClass) := bestClass features numClasses i in
  if (maxScore >? scoreThreshold cfg)%js then
    Normal (Some {| det_x := ((x - w / of_Z 2) * imgWidth)%js;
                    det_y := ((y - h / of_Z 2) * imgHeight)%js;
                    det_width := (w * imgWidth)%js;
                    det_height := (h * imgHeight)%js;
                    score := maxScore;
                    class := maxClass |})
  else Normal None.

Fixpoint decodeFrom (numClasses : nat) (anchors : list nat)
         (detections : list Detection) : completion (list Detection) :=
  match anchors with
  | [] => Normal detections
  | i :: later =>
      pushed <- decodeAnchor numClasses i ;;
      decodeFrom numClasses later
        (match pushed with
         | Some d => detections ++ [d]
         | None => detections
         end)
  end.

(** [numDetections = output[0][0].length],
    [numClasses = output[0].length - 4] (a negative count runs the
    class loop zero times, as [0] does), then the anchor loop. *)
Definition decode : completion (list Detection) :=
  match nth_error features 0 with
  | None => Throw TypeError
  | Some row0 =>
      let numDetections := length row0 in
      let numClasses := length features - 4 in
      decodeFrom numClasses (seq 0 numDetections) []
  end.
End Decode.

Definition boxOf (d : Detection) : Box :=
  {| x := det_x d; y := det_y d; width := det_width d; height := det_height d |}.

(** [processYOLOOutput] with the script's own [nonMaxSuppression]
    passed in: decode, suppress, then
    [selectedIndices.map(idx => detections[idx])], where [None] stands
    for [undefined]. *)
Definition processWith
           (nonMaxSuppression : list Box -> list num -> num -> nat -> completion (list nat))
           (cfg : Config) (output : list (list (list num)))
           (imgWidth imgHeight : num) : completion (list (option Detection)) :=
  match nth_error output 0 with
  | None => Throw TypeError
  | Some features =>
      detections <- decode cfg features imgWidth imgHeight ;;
      let boxes_nms := map boxOf detections in
      let scores_nms := map score detections in
      selectedIndices <- nonMaxSuppression boxes_nms scores_nms
                           (iouThreshold cfg) (maxDetections cfg) ;;
      Normal (map (fun idx => nth_error detections idx) selectedIndices)
  end.

End Shared.

(* ================================================================== *)
(** * yolo-worker.js *)
(* ================================================================== *)

Module Worker.

Definition calculateIoU := Shared.calculateIoU.

(** [for (let i = indices.length - 1; i >= 0; i--) { ... }], with
    [upto = i + 1].  A position the array does not have would read
    [undefined], and [calculateIoU] would throw on [boxes[undefined]]. *)
Fixpoint removeOverlapping (boxes : list Box) (iouThreshold : num) (currentIdx : nat)
         (upto : nat) (indices : list nat) : completion (list nat) :=
  match upto with
  | O => Normal indices
  | S i =>
      match nth_error indices i with
      | None => Throw TypeError
      | Some idx =>
          iou <- Shared.calculateIoU_at boxes currentIdx idx ;;
          removeOverlapping boxes iouThreshold currentIdx i
            (if (iou >? iouThreshold)%js then splice1 i indices else indices)
      end
  end.

Fixpoint rounds (boxes : list Box) (iouThreshold : num) (maxDetections : nat)
         (fuel : nat) (indices selected : list nat) : completion (list nat) :=
  match fuel with
  | O => Normal selected
  | S fuel' =>
      match indices with
      | [] => Normal selected
      | currentIdx :: rest =>
          if (length selected <? maxDetections)%nat then
            rest' <- removeOverlapping boxes iouThreshold currentIdx (length rest) rest ;;
            rounds boxes iouThreshold maxDetections fuel' rest'
                   (selected ++ [currentIdx])
          else Normal selected
      end
  end.

Definition nonMaxSuppression (boxes : list Box) (scores : list num)
           (iouThreshold : num) (maxDetections : nat) : completion (list nat) :=
  let indices := Shared.sortedIndices scores in
  rounds boxes iouThreshold maxDetections (length indices) indices [].

Definition processYOLOOutput (output : list (list (list num)))
           (imgWidth imgHeight : num) : completion (list (option Detection)) :=
  Shared.processWith nonMaxSuppression MODEL_CONFIG output imgWidth imgHeight.

(** What the worker's [runInference] meets on one request: whether its
    own [yoloModel] is loaded, what [yoloModel.predict] gives, and the
    dimensions sent along with the pixels. *)
Record Request : Type := mkRequest {
  modelLoaded : bool;
  predict : completion (list (list (list num)));
  req_width : num;
  req_height : num
}.

(** [runInference]: every failure is caught and reported as
    [{ success: false, error }], here [Throw error]; success carries
    the detections. *)
Definition runInference (r : Request) : completion (list (option Detection)) :=
  if modelLoaded r then
    predictions <- predict r ;;
    processYOLOOutput predictions (req_width r) (req_height r)
  else Throw "Model not loaded".

(** ** The worker's own state and its message handler *)

(** [yoloModel] (loaded or [null]) and [isModelLoading]. *)
Record State : Type := mkState {
  yoloModel : bool;
  isModelLoading : bool
}.

Definition initialState : State :=
  {| yoloModel := false; isModelLoading := false |}.

(** The messages the handler tells apart by [type]; [Infer] carries what
    the request meets ([yoloModel.predict] and the dimensions). *)
Inductive Message : Type :=
| Load
| Infer (predicted : completion (list (list (list num)))) (width height : num)
| Status
| Other (type : string).

(** What the worker posts back. *)
Inductive Posted : Type :=
| Progress (percentage : num)
| Loaded (success : bool) (message : string)
| Result (outcome : completion (list (option Detection)))
| StatusReply (modelLoaded isLoading : bool).

(** What happens in the worker, one step at a time: a message arrives
    (for [load], up to the [await] on [tf.loadGraphModel], which may
    throw at once), the load in flight reports progress, or it
    settles. *)
Inductive Event : Type :=
| Received (m : Message) (loadThrows : option string)
| LoadProgress (fraction : num)
| LoadSettled (failure : option string).

(** [loadModel] up to its [await], inside the [load] case of the
    handler: either the answer it returns at once, or the load it has
    started. *)
Definition loadModel (st : State) (loadThrows : option string) : State * list Posted :=
  if yoloModel st then (st, [Loaded true "Model already loaded"])
  else if isModelLoading st then (st, [Loaded false "Model is already loading"])
  else
    match loadThrows with
    | Some message =>
        ({| yoloModel := yoloModel st; isModelLoading := false |},
         [Loaded false message])
    | None => ({| yoloModel := yoloModel st; isModelLoading := true |}, [])
    end.

(** The rest of [loadModel], once the load in flight has settled. *)
Definition loadSettled (st : State) (failure : option string) : State * list Posted :=
  if isModelLoading st then
    match failure with
    | None =>
        ({| yoloModel := true; isModelLoading := false |},
         [Loaded true "Model loaded successfully"])
    | Some message =>
        ({| yoloModel := yoloModel st; isModelLoading := false |},
         [Loaded false message])
    end
  else (st, []).

(** The [onProgress] callback of the load in flight. *)
Definition onProgress (st : State) (fraction : num) : list Posted :=
  if isModelLoading st then [Progress (Math_round (fraction * of_Z 100)%js)] else [].

(** The [message] listener. *)
Definition onMessage (st : State) (m : Message) (loadThrows : option string)
  : State * list Posted :=
  match m with
  | Load => loadModel st loadThrows
  | Infer predicted width height =>
      (st, [Result (runInference {| modelLoaded := yoloModel st;
                                    predict := predicted;
                                    req_width := width;
                                    req_height := height |})])
  | Status => (st, [StatusReply (yoloModel st) (isModelLoading st)])
  | Other _ => (st, [])
  end.

Definition step (st : State) (ev : Event) : State * list Posted :=
  match ev with
  | Received m loadThrows => onMessage st m loadThrows
  | LoadProgress fraction => (st, onProgress st fraction)
  | LoadSettled failure => loadSettled st failure
  end.

(** The state after a sequence of events and everything posted on the
    way, in order. *)
Fixpoint run (st : State) (events : list Event) : State * list Posted :=
  match events with
  | [] => (st, [])
  | ev :: later =>
      let '(st1, posted1) := step st ev in
      let '(st2, posted2) := run st1 later in
      (st2, posted1 ++ posted2)
  end.

End Worker.

(* ================================================================== *)
(** * main.js *)
(* ================================================================== *)

Module Main.

Definition calculateIoU := Shared.calculateIoU.

(** [indices.forEach((idx, i) => { ... indices.splice(i, 1) ... })].
    [forEach] fixes the number of positions to visit when it starts
    ([steps] of them remain, the next one is [i]) and skips a position
    that the array no longer has. *)
Fixpoint forEach (boxes : list Box) (iouThreshold : num) (currentIdx : nat)
         (steps i : nat) (indices : list nat) : completion (list nat) :=
  match steps with
  | O => Normal indices
  | S steps' =>
      match nth_error indices i with
      | None => forEach boxes iouThreshold currentIdx steps' (S i) indices
      | Some idx =>
          iou <- Shared.calculateIoU_at boxes currentIdx idx ;;
          forEach boxes iouThreshold currentIdx steps' (S i)
            (if (iou >? iouThreshold)%js then splice1 i indices else indices)
      end
  end.

(** The [while] loop.  Every round shifts one index out, so [fuel]
    rounds are enough when [fuel] is the length of [indices]. *)
Fixpoint rounds (boxes : list Box) (iouThreshold : num) (maxDetections : nat)
         (fuel : nat) (indices selected : list nat) : completion (list nat) :=
  match fuel with
  | O => Normal selected
  | S fuel' =>
      match indices with
      | [] => Normal selected
      | currentIdx :: rest =>
          if (length selected <? maxDetections)%nat then
            rest' <- forEach boxes iouThreshold currentIdx (length rest) 0 rest ;;
            rounds boxes iouThreshold maxDetections fuel' rest'
                   (selected ++ [currentIdx])
          else Normal selected
      end
  end.

Definition nonMaxSuppression (boxes : list Box) (scores : list num)
           (iouThreshold : num) (maxDetections : nat) : completion (list nat) :=
  let indices := Shared.sortedIndices scores in
  rounds boxes iouThreshold maxDetections (length indices) indices [].

Definition processYOLOOutput (output : list (list (list num)))
           (imgWidth imgHeight : num) : completion (list (option Detection)) :=
  Shared.processWith nonMaxSuppression MODEL_CONFIG output imgWidth imgHeight.

(** ** Process-wide state *)

(** The value [detectMedicine] resolves with and the cache stores. *)
Definition Detections : Type := list (option Detection).

(** [performanceMetrics].  The three counters only ever change by
    [++] and by being set to [0]; they are whole numbers, exact as
    JavaScript numbers below [2^53]. *)
Record Metrics : Type := mkMetrics {
  modelLoadTime : num;
  inferenceCount : N;
  totalInferenceTime : num;
  averageInferenceTime : num;
  cachedResults : N;
  workerUsage : N
}.

Definition MAX_CACHE_SIZE : nat := 10.

(** [yoloWorker] is [true] when the variable holds a worker and
    [false] when it is [null]. *)
Record State : Type := mkState {
  yoloWorker : bool;
  useWebWorker : bool;
  performanceMetrics : Metrics;
  detectionCache : Map Detections
}.

Definition initialState : State :=
  {| yoloWorker := false;
     useWebWorker := true;
     performanceMetrics :=
       {| modelLoadTime := pzero; inferenceCount := 0; totalInferenceTime := pzero;
          averageInferenceTime := pzero; cachedResults := 0; workerUsage := 0 |};
     detectionCache := [] |}.

(** An image element, as far as the code reads it. *)
Record Image : Type := mkImage {
  src : string;
  img_width : N;
  img_height : N;
  naturalWidth : N;
  naturalHeight : N
}.

(** [`${src.substring(0, 50)}_${width}x${height}`] *)
Definition generateImageCacheKey (imageElement : Image) : string :=
  let width := orElse (img_width imageElement) (orElse (naturalWidth imageElement) 0) in
  let height := orElse (img_height imageElement) (orElse (naturalHeight imageElement) 0) in
  (substring 0 50 (src imageElement) ++ "_" ++ digits width ++ "x" ++ digits height)%string.

(** Everything outside the script that one call of [detectMedicine]
    meets, once each promise has settled: the two readings of
    [performance.now()], whether the promise executor of
    [detectMedicineWithWorker] gets as far as [postMessage], the
    worker's side of the request, and on the main thread the outcome
    of [loadYOLOModel] and of [model.predict]. *)
Record Call : Type := mkCall {
  imageElement : Image;
  startTime : num;
  endTime : num;
  dispatch : completion unit;
  workerModelLoaded : bool;
  workerPredict : completion (list (list (list num)));
  modelLoads : bool;
  mainPredict : completion (list (list (list num)))
}.

(** The execution context a call hands the image to. *)
Inductive Context : Type := WorkerContext | CallerContext.

(** [detectMedicineWithWorker]: the promise rejects if the executor
    throws or the [result] message has [success: false], and resolves
    with [event.data.detections] otherwise. *)
Definition detectMedicineWithWorker (c : Call) : completion Detections :=
  _ <- dispatch c ;;
  Worker.runInference
    {| Worker.modelLoaded := workerModelLoaded c;
       Worker.predict := workerPredict c;
       Worker.req_width :=
         of_N (orElse (img_width (imageElement c)) (naturalWidth (imageElement c)));
       Worker.req_height :=
         of_N (orElse (img_height (imageElement c)) (naturalHeight (imageElement c))) |}.

(** [detectMedicineMainThread] *)
Definition detectMedicineMainThread (c : Call) : completion Detections :=
  if modelLoads c then
    predictions <- mainPredict c ;;
    processYOLOOutput predictions
      (of_N (img_width (imageElement c))) (of_N (img_height (imageElement c)))
  else Throw "Failed to load YOLO model. Please check the model path.".

(** "Cache the results": the oldest entry leaves when the cache is
    full, then the new entry is set. *)
Definition cacheResults (cacheKey : string) (detections : Detections)
           (cache : Map Detections) : Map Detections :=
  let cache' :=
    if (MAX_CACHE_SIZE <=? map_size cache)%nat then
      match map_firstKey cache with
      | Some firstKey => map_delete firstKey cache
      | None => cache
      end
    else cache in
  map_set cacheKey detections cache'.

(** "Update performance metrics" *)
Definition updateMetrics (c : Call) (m : Metrics) : Metrics :=
  let inferenceTime := (endTime c - startTime c)%js in
  let count := (inferenceCount m + 1)%N in
  let total := (totalInferenceTime m + inferenceTime)%js in
  {| modelLoadTime := modelLoadTime m;
     inferenceCount := count;
     totalInferenceTime := total;
     averageInferenceTime := (total / of_N count)%js;
     cachedResults := cachedResults m;
     workerUsage := workerUsage m |}.

(** What a call leaves behind: the state, the settled promise, and the
    contexts the image was handed to, in order. *)
Record Outcome : Type := mkOutcome {
  final : State;
  result : completion Detections;
  attempts : list Context
}.

Definition completeCall (st : State) (c : Call) (cacheKey : string)
           (detections : Detections) (ctx : Context) : Outcome :=
  {| final :=
       {| yoloWorker := yoloWorker st;
          useWebWorker := useWebWorker st;
          performanceMetrics := updateMetrics c (performanceMetrics st);
          detectionCache := cacheResults cacheKey detections (detectionCache st) |};
     result := Normal detections;
     attempts := [ctx] |}.

(** The [try] block of [detectMedicine].  [detectionCache.has(cacheKey)]
    holds exactly when [detectionCache.get(cacheKey)] finds a value, so
    the two are read in one [match]. *)
Definition tryBlock (st : State) (c : Call) : Outcome :=
  let cacheKey := generateImageCacheKey (imageElement c) in
  match map_get cacheKey (detectionCache st) with
  | Some cached =>
      let m := performanceMetrics st in
      {| final :=
           {| yoloWorker := yoloWorker st;
              useWebWorker := useWebWorker st;
              performanceMetrics :=
                {| modelLoadTime := modelLoadTime m;
                   inferenceCount := inferenceCount m;
                   totalInferenceTime := totalInferenceTime m;
                   averageInferenceTime := averageInferenceTime m;
                   cachedResults := (cachedResults m + 1)%N;
                   workerUsage := workerUsage m |};
              detectionCache := detectionCache st |};
         result := Normal cached;
         attempts := [] |}
  | None =>
      if useWebWorker st && yoloWorker st then
        let m := performanceMetrics st in
        let st1 :=
          {| yoloWorker := yoloWorker st;
             useWebWorker := useWebWorker st;
             performanceMetrics :=
               {| modelLoadTime := modelLoadTime m;
                  inferenceCount := inferenceCount m;
                  totalInferenceTime := totalInferenceTime m;
                  averageInferenceTime := averageInferenceTime m;
                  cachedResults := cachedResults m;
                  workerUsage := (workerUsage m + 1)%N |};
             detectionCache := detectionCache st |} in
        match detectMedicineWithWorker c with
        | Normal detections => completeCall st1 c cacheKey detections WorkerContext
        | Throw error =>
            {| final := st1; result := Throw error; attempts := [WorkerContext] |}
        end
      else
        match detectMedicineMainThread c with
        | Normal detections => completeCall st c cacheKey detections CallerContext
        | Throw error =>
            {| final := st; result := Throw error; attempts := [CallerContext] |}
        end
  end.

(** The [catch] block, entered with the state the [try] block left. *)
Definition catchBlock (st : State) (c : Call) (error : string)
           (sofar : list Context) : Outcome :=
  if useWebWorker st && yoloWorker st then
    {| final :=
         {| yoloWorker := yoloWorker st;
            useWebWorker := false;
            performanceMetrics := performanceMetrics st;
            detectionCache := detectionCache st |};
       result := detectMedicineMainThread c;
       attempts := sofar ++ [CallerContext] |}
  else {| final := st; result := Throw error; attempts := sofar |}.

(** [detectMedicine], from the call to the settlement of its promise.
    No other event is placed between the two: one call is in flight at
    a time. *)
Definition detectMedicine (st : State) (c : Call) : Outcome :=
  let tried := tryBlock st c in
  match result tried with
  | Normal _ => tried
  | Throw error => catchBlock (final tried) c error (attempts tried)
  end.

(** ** The other code that writes the state *)

(** [window.resetPerformanceMetrics] *)
Definition resetPerformanceMetrics (st : State) : State :=
  {| yoloWorker := yoloWorker st;
     useWebWorker := useWebWorker st;
     performanceMetrics :=
       {| modelLoadTime := pzero; inferenceCount := 0; totalInferenceTime := pzero;
          averageInferenceTime := pzero; cachedResults := 0; workerUsage := 0 |};
     detectionCache := [] |}.

(** The worker part of [preloadModel]: [yoloWorker = initYOLOWorker()]
    when [useWebWorker] holds.  [supported] is [window.Worker] and
    [constructed] says whether [new Worker(...)] returned. *)
Definition preloadModel (supported constructed : bool) (st : State) : State :=
  if useWebWorker st then
    if supported && constructed then
      {| yoloWorker := true;
         useWebWorker := true;
         performanceMetrics := performanceMetrics st;
         detectionCache := detectionCache st |}
    else
      {| yoloWorker := false;
         useWebWorker := false;
         performanceMetrics := performanceMetrics st;
         detectionCache := detectionCache st |}
  else st.

(** The listener of the worker's [error] event. *)
Definition onWorkerError (st : State) : State :=
  {| yoloWorker := false;
     useWebWorker := false;
     performanceMetrics := performanceMetrics st;
     detectionCache := detectionCache st |}.

(** The events of a page's life, one at a time. *)
Inductive Event : Type :=
| Detect (c : Call)
| Reset
| Preload (supported constructed : bool)
| WorkerError.

Definition step (st : State) (ev : Event) : State :=
  match ev with
  | Detect c => final (detectMedicine st c)
  | Reset => resetPerformanceMetrics st
  | Preload supported constructed => preloadModel supported constructed st
  | WorkerError => onWorkerError st
  end.

Definition run (st : State) (events : list Event) : State :=
  fold_left step events st.

(** ** Telemetry snapshot *)

(** [x.toFixed(1) + '%'] *)
Definition percent (x : num) : option string :=
  match toFixed1 x with
  | Some digits => Some (digits ++ "%")%string
  | None => None
  end.

Record Snapshot : Type := mkSnapshot {
  metrics : Metrics;
  workerEnabled : bool;
  workerActive : bool;
  cacheSize : nat;
  workerUsagePercent : option string;
  cacheHitRate : option string
}.

(** [window.getPerformanceMetrics] *)
Definition getPerformanceMetrics (st : State) : Snapshot :=
  let m := performanceMetrics st in
  {| metrics := m;
     workerEnabled := useWebWorker st;
     workerActive := yoloWorker st;
     cacheSize := map_size (detectionCache st);
     workerUsagePercent :=
       if (0 <? inferenceCount m)%N then
         percent (of_N (workerUsage m) / of_N (inferenceCount m) * of_Z 100)%js
       else Some "0%"%string;
     cacheHitRate :=
       if (0 <? inferenceCount m)%N then
         percent (of_N (cachedResults m)
                  / of_N (inferenceCount m + cachedResults m) * of_Z 100)%js
       else Some "0%"%string |}.

(** ** [loadYOLOModel] *)

(** [modelLoadPromise] when it is not [null]: the promise of a load in
    flight, or of a load that has given the model. *)
Inductive LoadPromise : Type := Pending | Fulfilled.

(** [yoloModel] (loaded or [null]), [isModelLoading] and
    [modelLoadPromise]. *)
Record Loader : Type := mkLoader {
  yoloModel : bool;
  isModelLoading : bool;
  modelLoadPromise : option LoadPromise
}.

Definition initialLoader : Loader :=
  {| yoloModel := false; isModelLoading := false; modelLoadPromise := None |}.

(** What a call of [loadYOLOModel] does before it first awaits: it
    returns the model, returns the promise already there, calls
    [tf.loadGraphModel] and awaits it, or, if that call throws at once,
    throws its own error. *)
Inductive LoadCall : Type :=
| ReturnsModel
| ReturnsPromise
| AwaitsLoad
| ThrowsLoadError (message : string).

Definition loadError : string :=
  "Failed to load YOLO model. Please check the model path.".

Definition loadYOLOModel (ld : Loader) (loadThrows : bool) : Loader * LoadCall :=
  if yoloModel ld then (ld, ReturnsModel)
  else
    match modelLoadPromise ld with
    | Some _ => (ld, ReturnsPromise)
    | None =>
        if loadThrows then
          ({| yoloModel := yoloModel ld; isModelLoading := false;
              modelLoadPromise := None |},
           ThrowsLoadError loadError)
        else
          ({| yoloModel := yoloModel ld; isModelLoading := true;
              modelLoadPromise := Some Pending |},
           AwaitsLoad)
    end.

(** The rest of the call that awaits the load, once [modelLoadPromise]
    has settled: with the model, or in the [catch] block. *)
Definition modelLoadSettled (ld : Loader) (loaded : bool) : Loader :=
  match modelLoadPromise ld with
  | Some Pending =>
      if loaded then
        {| yoloModel := true; isModelLoading := false;
           modelLoadPromise := Some Fulfilled |}
      else
        {| yoloModel := yoloModel ld; isModelLoading := false;
           modelLoadPromise := None |}
  | _ => ld
  end.

Inductive LoaderEvent : Type :=
| Called (loadThrows : bool)
| Settled (loaded : bool).

Definition loaderStep (ld : Loader) (ev : LoaderEvent) : Loader :=
  match ev with
  | Called loadThrows => fst (loadYOLOModel ld loadThrows)
  | Settled loaded => modelLoadSettled ld loaded
  end.

Definition loaderRun (ld : Loader) (events : list LoaderEvent) : Loader :=
  fold_left loaderStep events ld.

(** ** [resizeImageIfNeeded] *)

(** [None] is the [null] returned when the image has no size or fits;
    otherwise the size the image is drawn at on the canvas whose data
    URL is returned. *)
Definition resizeImageIfNeeded (image : Image) (maxWidth maxHeight : num)
  : option (num * num) :=
  let width := orElse (naturalWidth image) (img_width image) in
  let height := orElse (naturalHeight image) (img_height image) in
  if (width =? 0)%N || (height =? 0)%N then None
  else if SFleb (of_N width) maxWidth && SFleb (of_N height) maxHeight then None
  else
    let size1 :=
      if (of_N width >? maxWidth)%js
      then (maxWidth, (of_N height * maxWidth / of_N width)%js)
      else (of_N width, of_N height) in
    let size2 :=
      if (snd size1 >? maxHeight)%js
      then ((of_N width * maxHeight / of_N height)%js, maxHeight)
      else size1 in
    Some size2.

(** ** Labels and [sendToBackend] *)

Definition CLASS_LABELS : list string :=
  ["alaxan_fr"; "biogesic-para"; "cetirizine"; "fern-c"; "ibuprofen-advil";
   "kremil-s"; "loperamide diatabs"; "ritemed-para"; "unilab-enervon";
   "unliab-bioflu"]%string.

(** [drawBoundingBoxes]: the text written above the box of a
    detection,
    [`${className} ${(detection.score * 100).toFixed(1)}%`] with
    [className = CLASS_LABELS[detection.class] || `Class ${detection.class}`]. *)
Definition className (d : Detection) : string :=
  match nth_error CLASS_LABELS (class d) with
  | Some label => label
  | None => ("Class " ++ digits (N.of_nat (class d)))%string
  end.

Definition boxLabel (d : Detection) : option string :=
  match percent (score d * of_Z 100)%js with
  | Some shown => Some (className d ++ " " ++ shown)%string
  | None => None
  end.

(** One entry of [payload.detections]. *)
Record PayloadEntry : Type := mkEntry {
  medicine : string;
  confidence : num;
  bbox : Box
}.

(** [CLASS_LABELS[d.class] || `Unknown ${d.class}`]; every label is a
    non-empty string, so the second operand is taken for an index
    outside the table only. *)
Definition medicineOf (d : Detection) : string :=
  match nth_error CLASS_LABELS (class d) with
  | Some label => label
  | None => ("Unknown " ++ digits (N.of_nat (class d)))%string
  end.

(** [detections.map(d => ({ medicine, confidence, bbox }))]; an
    [undefined] entry throws on [d.class]. *)
Fixpoint payloadDetections (detections : Detections) : completion (list PayloadEntry) :=
  match detections with
  | [] => Normal []
  | None :: _ => Throw TypeError
  | Some d :: later =>
      entries <- payloadDetections later ;;
      Normal ({| medicine := medicineOf d; confidence := score d;
                 bbox := Shared.boxOf d |} :: entries)
  end.

(** What [fetch('/api/predict', ...)] and [response.json()] give:
    [fetch] rejects, or resolves with a response that has a status and
    a body that parses or does not. *)
Record Response (J : Type) : Type := mkResponse {
  ok : bool;
  status : N;
  json : completion J
}.

(** What [sendToBackend] resolves with: the parsed body, or the mock
    record of the [catch] block, whose [medicine] is [undefined]
    ([None]) for a class outside the table. *)
Inductive BackendResult (J : Type) : Type :=
| FromBackend (body : J)
| Mock (medicine : option string).

Definition sendToBackend (J : Type) (detections : Detections)
           (fetched : completion (Response J)) : completion (BackendResult J) :=
  let tried :=
    _ <- payloadDetections detections ;;
    response <- fetched ;;
    if ok response then
      body <- json response ;;
      Normal (FromBackend body)
    else Throw ("Backend error: " ++ digits (status response))%string in
  match tried with
  | Normal result => Normal result
  | Throw _ =>
      match detections with
      | [] => Normal (Mock J (Some "Unknown"%string))
      | Some d :: _ => Normal (Mock J (nth_error CLASS_LABELS (class d)))
      | None :: _ => Throw TypeError
      end
  end.

End Main.


(* ================================================================== *)
(** * Sample inputs *)
(* ================================================================== *)

Module Sample.

(** A box with whole-number coordinates. *)
Definition box (bx by_ bw bh : Z) : Box :=
  {| x := of_Z bx; y := of_Z by_; width := of_Z bw; height := of_Z bh |}.

(** A box of width and height [0]. *)
Definition point : Box := box 0 0 0 0.

(** Two boxes whose IoU is exactly [0.9]: areas [100] and [90],
    overlap [90]. *)
Definition tall : Box := box 0 0 10 10.
Definition short : Box := box 0 0 10 9.

(** A box that meets [tall] nowhere. *)
Definition apart : Box := box 20 20 10 10.

(** Three copies of one box with scores [0.9], [0.8], [0.7]. *)
Definition threeBoxes : list Box := [tall; tall; tall].
Definition threeScores : list num := [dec 9 1; dec 8 1; dec 7 1].

(** A raw output of shape [[1, 5, 3]]: three anchors on the same
    normalized box, one class, confidences [0.9], [0.8], [0.7]. *)
Definition threeAnchors : list (list (list num)) :=
  [[ [dec 5 1; dec 5 1; dec 5 1];
     [dec 5 1; dec 5 1; dec 5 1];
     [dec 2 1; dec 2 1; dec 2 1];
     [dec 2 1; dec 2 1; dec 2 1];
     [dec 9 1; dec 8 1; dec 7 1] ]].

(** The features of a raw output of shape [[1, 6, 1]]: one anchor, two
    classes, both with confidence exactly [0.25]. *)
Definition atThreshold : list (list num) :=
  [ [dec 5 1]; [dec 5 1]; [dec 2 1]; [dec 2 1]; [dec 25 2]; [dec 25 2] ].


(** A page whose worker was created by [preloadModel]. *)
Definition workerReady : Main.State :=
  Main.run Main.initialState [Main.Preload true true].

Definition photo (name : string) : Main.Image :=
  {| Main.src := name; Main.img_width := 640; Main.img_height := 480;
     Main.naturalWidth := 640; Main.naturalHeight := 480 |}.

(** A call on [photo name] that takes 250 ms, with a model on the main
    thread that loads and predicts [threeAnchors]; the worker predicts
    the same when its model is loaded. *)
Definition call (name : string) (workerLoaded : bool) : Main.Call :=
  {| Main.imageElement := photo name;
     Main.startTime := of_Z 1000;
     Main.endTime := of_Z 1250;
     Main.dispatch := Normal tt;
     Main.workerModelLoaded := workerLoaded;
     Main.workerPredict := Normal threeAnchors;
     Main.modelLoads := true;
     Main.mainPredict := Normal threeAnchors |}.

(** A first request that reaches the worker before its model is loaded:
    [runInference] answers [{ success: false, error: 'Model not loaded' }]. *)
Definition earlyCall : Main.Call := call "blob:first" false.

(** Three inferences on different images, then the first image again. *)
Definition threeThenRepeat : list Main.Event :=
  [Main.Detect (call "blob:a" true); Main.Detect (call "blob:b" true);
   Main.Detect (call "blob:c" true); Main.Detect (call "blob:a" true)].

(** Eleven calls on eleven different images. *)
Definition elevenCalls : list Main.Event :=
  map (fun name => Main.Detect (call name true))
      ["blob:0"; "blob:1"; "blob:2"; "blob:3"; "blob:4"; "blob:5"; "blob:6";
       "blob:7"; "blob:8"; "blob:9"; "blob:10"]%string.

(** Eleven results under the keys [k0] to [k10]. *)
Definition elevenEntries : list (string * Main.Detections) :=
  map (fun k => (k, []))
      ["k0"; "k1"; "k2"; "k3"; "k4"; "k5"; "k6"; "k7"; "k8"; "k9"; "k10"]%string.

(** A page that loads the model on its own thread: the first load
    fails, the second gives the model, and calls arrive in between. *)
Definition loaderEvents : list Main.LoaderEvent :=
  [Main.Called false; Main.Called false; Main.Settled false;
   Main.Called false; Main.Settled true; Main.Called false].

(** A worker that is asked to load twice, asked to infer while it
    loads, and asked for its status once the model is there. *)
Definition workerEvents : list Worker.Event :=
  [Worker.Received Worker.Load None;
   Worker.Received Worker.Load None;
   Worker.LoadProgress (dec 5 1);
   Worker.Received (Worker.Infer (Normal threeAnchors) (of_Z 640) (of_Z 480)) None;
   Worker.LoadSettled None;
   Worker.Received Worker.Status None].

(** The same worker before its load has settled. *)
Definition workerLoading : list Worker.Event :=
  [Worker.Received Worker.Load None; Worker.LoadProgress (dec 5 1)].

(** A photo larger than the limits in both directions. *)
Definition largePhoto : Main.Image :=
  {| Main.src := "blob:large"; Main.img_width := 400; Main.img_height := 300;
     Main.naturalWidth := 4000; Main.naturalHeight := 3000 |}.

End Sample.

(* ================================================================== *)
(** * Vocabulary of the statements *)
(* ================================================================== *)

Module Spec.

(** What the class loop has established after [n] classes of anchor
    [i]: the running maximum is a number, no class seen so far is
    greater, and either nothing was greater than the initial [0], or the
    maximum is the confidence of [maxClass], it is positive, and no
    earlier class reaches it. *)
Definition scanned (features : list (list num)) (i n : nat) (best : num * nat) : Prop :=
  let '(maxScore, maxClass) := best in
  is_nan maxScore = false /\
  (forall c, c < n -> (Shared.classCell features c i >? maxScore)%js = false) /\
  ((maxScore = pzero /\ maxClass = 0 /\
    forall c, c < n -> (Shared.classCell features c i >? pzero)%js = false)
   \/
   (maxClass < n /\ Shared.classCell features maxClass i = maxScore /\
    (maxScore >? pzero)%js = true /\
    forall c, c < maxClass -> SFleb maxScore (Shared.classCell features c i) = false)).

(** [calculateIoU(boxes[i], boxes[j]) > iouThreshold], for two boxes
    that exist. *)
Definition overlaps (boxes : list Box) (iouThreshold : num) (i j : nat) : bool :=
  match Shared.calculateIoU_at boxes i j with
  | Normal iou => (iou >? iouThreshold)%js
  | Throw _ => false
  end.

(** The states a page can be in: those some sequence of events leads to
    from the initial one. *)
Definition Reachable (st : Main.State) : Prop :=
  exists events, st = Main.run Main.initialState events.

(** The cache after the results of a list of calls were stored one after
    the other, starting from the empty cache. *)
Definition stored (entries : list (string * Main.Detections)) : Map Main.Detections :=
  fold_left (fun cache e => Main.cacheResults (fst e) (snd e) cache) entries [].

(** The key [detectMedicine] computes for a call. *)
Definition keyOf (c : Main.Call) : string :=
  Main.generateImageCacheKey (Main.imageElement c).

(** What holds of the cache and the counters in every state of a page:
    the cache is within its capacity, it has no key twice, and there is
    no cached result and no cache hit before the first counted
    inference. *)
Definition consistent (st : Main.State) : Prop :=
  map_size (Main.detectionCache st) <= Main.MAX_CACHE_SIZE /\
  NoDup (map_keys (Main.detectionCache st)) /\
  (Main.inferenceCount (Main.performanceMetrics st) = 0%N ->
   Main.detectionCache st = [] /\
   Main.cachedResults (Main.performanceMetrics st) = 0%N).

(** The [while] loop of [nonMaxSuppression], with the inner loop of the
    script passed in as [prune]. *)
Fixpoint roundsWith (prune : nat -> list nat -> completion (list nat))
         (maxDetections fuel : nat) (indices selected : list nat)
  : completion (list nat) :=
  match fuel with
  | O => Normal selected
  | S fuel' =>
      match indices with
      | [] => Normal selected
      | currentIdx :: rest =>
          if (length selected <? maxDetections)%nat then
            rest' <- prune currentIdx rest ;;
            roundsWith prune maxDetections fuel' rest' (selected ++ [currentIdx])
          else Normal selected
      end
  end.

(** What an inner loop may do to the candidates [before] it when box
    [currentIdx] was accepted: it adds none, repeats none, and drops
    none that does not overlap the accepted box. *)
Definition pruned (boxes : list Box) (iouThreshold : num) (currentIdx : nat)
           (before after : list nat) : Prop :=
  (forall idx, In idx after -> In idx before) /\
  (NoDup before -> NoDup after) /\
  length after <= length before /\
  (forall idx, In idx before ->
               overlaps boxes iouThreshold currentIdx idx = false -> In idx after).

(** The character [c] occurs in [s]. *)
Fixpoint mentions (c : ascii) (s : string) : Prop :=
  match s with
  | EmptyString => False
  | String a rest => a = c \/ mentions c rest
  end.

(** The width and height [generateImageCacheKey] writes into the key. *)
Definition keyWidth (imageElement : Main.Image) : N :=
  orElse (Main.img_width imageElement) (orElse (Main.naturalWidth imageElement) 0).

Definition keyHeight (imageElement : Main.Image) : N :=
  orElse (Main.img_height imageElement) (orElse (Main.naturalHeight imageElement) 0).

(** What holds of [yoloModel], [isModelLoading] and [modelLoadPromise]
    together: no promise, no model and no load; a pending promise and a
    load in flight; or a fulfilled promise and the model. *)
Definition loaderOk (ld : Main.Loader) : Prop :=
  match Main.modelLoadPromise ld with
  | None => Main.yoloModel ld = false /\ Main.isModelLoading ld = false
  | Some Main.Pending => Main.yoloModel ld = false /\ Main.isModelLoading ld = true
  | Some Main.Fulfilled => Main.yoloModel ld = true /\ Main.isModelLoading ld = false
  end.

(** How many calls of [loadYOLOModel] in [events] called
    [tf.loadGraphModel] and got a promise. *)
Fixpoint loadsStarted (ld : Main.Loader) (events : list Main.LoaderEvent) : nat :=
  match events with
  | [] => 0
  | ev :: later =>
      (match ev with
       | Main.Called loadThrows =>
           match snd (Main.loadYOLOModel ld loadThrows) with
           | Main.AwaitsLoad => 1
           | _ => 0
           end
       | Main.Settled _ => 0
       end) + loadsStarted (Main.loaderStep ld ev) later
  end.

(** How many loads in [events] were rejected. *)
Fixpoint loadsFailed (ld : Main.Loader) (events : list Main.LoaderEvent) : nat :=
  match events with
  | [] => 0
  | ev :: later =>
      (match ev, Main.modelLoadPromise ld with
       | Main.Settled false, Some Main.Pending => 1
       | _, _ => 0
       end) + loadsFailed (Main.loaderStep ld ev) later
  end.

(** Counting the messages of one kind. *)
Definition count (A : Type) (kind : A -> bool) (l : list A) : nat :=
  length (filter kind l).

Definition isLoaded (p : Worker.Posted) : bool :=
  match p with Worker.Loaded _ _ => true | _ => false end.

Definition isResult (p : Worker.Posted) : bool :=
  match p with Worker.Result _ => true | _ => false end.

Definition isStatusReply (p : Worker.Posted) : bool :=
  match p with Worker.StatusReply _ _ => true | _ => false end.

Definition isProgress (p : Worker.Posted) : bool :=
  match p with Worker.Progress _ => true | _ => false end.

Definition asksLoad (ev : Worker.Event) : bool :=
  match ev with Worker.Received Worker.Load _ => true | _ => false end.

Definition asksInfer (ev : Worker.Event) : bool :=
  match ev with Worker.Received (Worker.Infer _ _ _) _ => true | _ => false end.

Definition asksStatus (ev : Worker.Event) : bool :=
  match ev with Worker.Received Worker.Status _ => true | _ => false end.

(** The load in flight gives the model. *)
Definition givesModel (ev : Worker.Event) : bool :=
  match ev with Worker.LoadSettled None => true | _ => false end.


End Spec.

Unset Implicit Arguments.

(* ================================================================== *)
(** * Facts about JavaScript numbers *)
(* ================================================================== *)

Section NumberFacts.

Lemma compare_cont_Eq (p q : positive) : Pos.compare_cont Eq p q = (p ?= q)%positive.
Proof. reflexivity. Qed.

(** Swapping the arguments of a comparison reverses its verdict. *)
Lemma SFcompare_swap (a b : num) :
  SFcompare b a = option_map CompOpp (SFcompare a b).
Proof.
  destruct a as [sa|sa| |sa ma ea], b as [sb|sb| |sb mb eb]; simpl;
    try destruct sa; try destruct sb; try reflexivity;
    rewrite (Z.compare_antisym ea eb), !compare_cont_Eq, (Pos.compare_antisym ma mb);
    destruct (ea ?= eb)%Z; simpl; try reflexivity;
    destruct (ma ?= mb)%positive; reflexivity.
Qed.

(** Two numbers that compare equal are the same value, or two zeros. *)
Lemma SFcompare_Eq (a b : num) :
  SFcompare a b = Some Eq ->
  a = b \/ (exists sa sb, a = S754_zero sa /\ b = S754_zero sb).
Proof.
  destruct a as [sa|sa| |sa ma ea], b as [sb|sb| |sb mb eb]; simpl;
    try discriminate; try (right; eauto; fail);
    try (destruct sa; discriminate); try (destruct sb; discriminate).
  - destruct sa, sb; try discriminate; auto.
  - rewrite !compare_cont_Eq.
    destruct sa, sb; try discriminate;
      destruct (Z.compare_spec ea eb); try discriminate;
      destruct (Pos.compare_spec ma mb); try discriminate;
      intros _; left; subst; reflexivity.
Qed.

Lemma Math_max_comm (a b : num) : Math_max a b = Math_max b a.
Proof.
  unfold Math_max. rewrite (SFcompare_swap a b).
  destruct (SFcompare a b) as [[ | | ]|] eqn:E; simpl; try reflexivity.
  destruct (SFcompare_Eq _ _ E) as [->|(sa & sb & -> & ->)].
  - reflexivity.
  - now rewrite andb_comm.
Qed.

Lemma Math_min_comm (a b : num) : Math_min a b = Math_min b a.
Proof.
  unfold Math_min. rewrite (SFcompare_swap a b).
  destruct (SFcompare a b) as [[ | | ]|] eqn:E; simpl; try reflexivity.
  destruct (SFcompare_Eq _ _ E) as [->|(sa & sb & -> & ->)].
  - reflexivity.
  - now rewrite orb_comm.
Qed.

Lemma add_comm (a b : num) : (a + b)%js = (b + a)%js.
Proof.
  destruct a as [sa|sa| |sa ma ea], b as [sb|sb| |sb mb eb]; simpl;
    try destruct sa; try destruct sb; try reflexivity;
    unfold add, SFadd; rewrite (Z.min_comm ea eb); f_equal; apply Z.add_comm.
Qed.

Lemma mul_comm (a b : num) : (a * b)%js = (b * a)%js.
Proof.
  destruct a as [sa|sa| |sa ma ea], b as [sb|sb| |sb mb eb]; unfold mul, SFmul;
    try rewrite (xorb_comm sa sb); try rewrite (Pos.mul_comm ma mb);
    try rewrite (Z.add_comm ea eb); reflexivity.
Qed.

(** The order on numbers.  NaN is below, above and beside nothing. *)

Ltac by_cases a b c :=
  destruct a as [?s|?s| |?s ?m ?e], b as [?s|?s| |?s ?m ?e], c as [?s|?s| |?s ?m ?e];
  simpl; repeat match goal with s : bool |- _ => destruct s end;
  simpl; try discriminate; try reflexivity.

Ltac by_digits :=
  repeat match goal with
    | |- context [(?p ?= ?q)%Z] => destruct (Z.compare_spec p q)
    | |- context [Pos.compare_cont Eq ?p ?q] =>
        change (Pos.compare_cont Eq p q) with (p ?= q)%positive;
        destruct (Pos.compare_spec p q)
    end;
  simpl; try discriminate; try reflexivity; try lia.

Lemma ltb_trans (a b c : num) :
  SFltb a b = true -> SFltb b c = true -> SFltb a c = true.
Proof. unfold SFltb. by_cases a b c; by_digits. Qed.

Lemma ltb_leb_trans (a b c : num) :
  SFltb a b = true -> SFleb b c = true -> SFltb a c = true.
Proof. unfold SFltb, SFleb. by_cases a b c; by_digits. Qed.

(** Between two numbers that are not NaN, "not greater" is "at most". *)
Lemma not_ltb_leb (a b : num) :
  is_nan a = false -> is_nan b = false -> SFltb a b = false -> SFleb b a = true.
Proof.
  unfold SFltb, SFleb.
  destruct a as [?s|?s| |?s ?m ?e], b as [?s|?s| |?s ?m ?e];
    simpl; repeat match goal with s : bool |- _ => destruct s end;
    simpl; try discriminate; try reflexivity; by_digits.
Qed.

Lemma ltb_not_nan (a b : num) :
  SFltb a b = true -> is_nan a = false /\ is_nan b = false.
Proof. destruct a, b; simpl; try discriminate; auto. Qed.

Lemma ltb_irrefl (a : num) : SFltb a a = false.
Proof.
  unfold SFltb. destruct a as [s|s| |s m e]; simpl; try destruct s; try reflexivity;
    rewrite Z.compare_refl, compare_cont_Eq, Pos.compare_refl; reflexivity.
Qed.

Lemma gt_NaN_l (t : num) : (NaN >? t)%js = false.
Proof. destruct t; reflexivity. Qed.

End NumberFacts.

(* ================================================================== *)
(** * Intersection over union *)
(* ================================================================== *)

Lemma calculateIoU_quotient (box1 box2 : Box) :
  Shared.calculateIoU box1 box2
  = (Shared.intersectionArea box1 box2 / Shared.unionArea box1 box2)%js.
Proof. reflexivity. Qed.

Lemma div_zero_l (a b : num) :
  is_zero a = true ->
  is_nan (a / b)%js = (is_zero b || is_nan b) /\
  is_zero (a / b)%js = negb (is_zero b || is_nan b).
Proof.
  destruct a; try discriminate. intros _. destruct b; split; reflexivity.
Qed.

Lemma sub_diag_finite (s : bool) (m : positive) (e : Z) :
  (S754_finite s m e - S754_finite s m e)%js = pzero.
Proof.
  unfold sub, SFsub. cbv zeta. now rewrite Z.sub_diag.
Qed.

Lemma Math_max_diag (a : num) : Math_max a a = a.
Proof.
  unfold Math_max. destruct a as [s|s| |s m e]; cbn; try destruct s; try reflexivity;
    now rewrite Z.compare_refl, compare_cont_Eq, Pos.compare_refl.
Qed.

Lemma Math_min_diag (a : num) : Math_min a a = a.
Proof.
  unfold Math_min. destruct a as [s|s| |s m e]; cbn; try destruct s; try reflexivity;
    now rewrite Z.compare_refl, compare_cont_Eq, Pos.compare_refl.
Qed.

(** The extent of a box of size [+0] along one axis, as [calculateIoU]
    computes it against the box itself: [+0], or NaN when the coordinate
    is infinite or NaN. *)
Lemma zero_extent (p : num) :
  let extent := Math_max pzero (Math_min (p + pzero) (p + pzero) - Math_max p p)%js in
  extent = pzero \/ extent = NaN.
Proof.
  cbv zeta. rewrite Math_max_diag, Math_min_diag.
  destruct p as [s|s| |s m e].
  - left. destruct s; reflexivity.
  - right. destruct s; reflexivity.
  - right. reflexivity.
  - left. change (S754_finite s m e + pzero)%js with (S754_finite s m e).
    rewrite sub_diag_finite. reflexivity.
Qed.

(** A box of width and height [+0], compared with itself, has IoU NaN
    wherever it lies. *)
Lemma calculateIoU_zero_size (px py : num) :
  let b := {| x := px; y := py; width := pzero; height := pzero |} in
  Shared.calculateIoU b b = NaN.
Proof.
  cbv zeta. unfold Shared.calculateIoU. cbn [x y width height].
  destruct (zero_extent px) as [-> | ->]; destruct (zero_extent py) as [-> | ->];
    reflexivity.
Qed.

(** C10. [calculateIoU] is commutative in both scripts: for all boxes
    [a] and [b], [calculateIoU(a, b)] and [calculateIoU(b, a)] are the
    same number. *)
Theorem calculateIoU_comm (a b : Box) :
  Main.calculateIoU a b = Main.calculateIoU b a /\
  Worker.calculateIoU a b = Worker.calculateIoU b a.
Proof.
  assert (H : Shared.calculateIoU a b = Shared.calculateIoU b a).
  { unfold Shared.calculateIoU.
    rewrite (Math_max_comm (x a) (x b)), (Math_max_comm (y a) (y b)).
    rewrite (Math_min_comm (x a + width a)%js), (Math_min_comm (y a + height a)%js).
    rewrite (add_comm (width a * height a)%js).
    reflexivity. }
  split; exact H.
Qed.

(** The claim of C2 fails on a pair of boxes of width and height [0]:
    their overlap is [0], their union is [0], and the quotient [0 / 0]
    is NaN, not [0]. *)
Lemma calculateIoU_degenerate_not_zero :
  ~ (forall box1 box2 : Box,
        SFleb pzero (width box1) = true -> SFleb pzero (height box1) = true ->
        SFleb pzero (width box2) = true -> SFleb pzero (height box2) = true ->
        is_zero (Shared.intersectionArea box1 box2) = true ->
        is_zero (Main.calculateIoU box1 box2) = true).
Proof.
  intros H.
  specialize (H Sample.point Sample.point eq_refl eq_refl eq_refl eq_refl eq_refl).
  vm_compute in H. discriminate H.
Qed.

(** C2, amended.  [calculateIoU] returns [intersection / union] with no
    test on [union].  For a pair with zero overlap area the result is a
    zero whenever the union area is neither zero nor NaN, and it is NaN
    when the union area is zero (two zero-area boxes) or NaN; a NaN
    result is never greater than any threshold. *)
Theorem calculateIoU_zero_overlap (box1 box2 : Box) :
  is_zero (Shared.intersectionArea box1 box2) = true ->
  let union := Shared.unionArea box1 box2 in
  let iou := Main.calculateIoU box1 box2 in
  Worker.calculateIoU box1 box2 = iou /\
  is_zero iou = negb (is_zero union || is_nan union) /\
  is_nan iou = (is_zero union || is_nan union) /\
  (is_nan iou = true -> forall t, (iou >? t)%js = false).
Proof.
  intros Hz union iou.
  destruct (div_zero_l _ (Shared.unionArea box1 box2) Hz) as [Hn Hzero].
  repeat split.
  - exact Hzero.
  - exact Hn.
  - intros Hnan t. destruct iou; try discriminate. apply gt_NaN_l.
Qed.

Lemma calculateIoU_zero_overlap_witness :
  (is_zero (Main.calculateIoU Sample.point Sample.point) = false /\
   is_nan (Main.calculateIoU Sample.point Sample.point) = true) /\
  (is_zero (Main.calculateIoU Sample.tall Sample.apart) = true /\
   is_nan (Main.calculateIoU Sample.tall Sample.apart) = false).
Proof.
  split.
  - destruct (calculateIoU_zero_overlap Sample.point Sample.point eq_refl)
      as (_ & Hz & Hn & _).
    split; [exact Hz | exact Hn].
  - destruct (calculateIoU_zero_overlap Sample.tall Sample.apart eq_refl)
      as (_ & Hz & Hn & _).
    split; [exact Hz | exact Hn].
Defined.

(* ================================================================== *)
(** * Suppression *)
(* ================================================================== *)

Section SuppressionFacts.

Variable boxes : list Box.
Variable iouThreshold : num.

Lemma splice1_length (A : Type) (i : nat) (l : list A) :
  length (splice1 i l) <= length l.
Proof.
  unfold splice1. rewrite length_app, length_firstn, length_skipn. lia.
Qed.

Lemma firstn_S_nth_error (A : Type) (i : nat) (l : list A) (a : A) :
  nth_error l i = Some a -> firstn (S i) l = firstn i l ++ [a].
Proof.
  revert l. induction i as [|i IH]; intros [|b l] H; try discriminate.
  - injection H as ->. reflexivity.
  - cbn in H. change (b :: firstn (S i) l = b :: (firstn i l ++ [a])).
    f_equal. exact (IH l H).
Qed.

Lemma skipn_nth_error (A : Type) (i : nat) (l : list A) (a : A) :
  nth_error l i = Some a -> skipn i l = a :: skipn (S i) l.
Proof.
  revert l. induction i as [|i IH]; intros [|b l] H; try discriminate.
  - injection H as ->. reflexivity.
  - cbn in H. exact (IH l H).
Qed.

Lemma splice1_Forall (A : Type) (P : A -> Prop) (i : nat) (l : list A) (a : A) :
  nth_error l i = Some a -> Forall P l -> Forall P (splice1 i l).
Proof.
  intros Hi Hall. rewrite <- (firstn_skipn_middle _ _ Hi) in Hall.
  apply Forall_app in Hall. destruct Hall as [Hfront Hback].
  inversion Hback; subst. unfold splice1. apply Forall_app. now split.
Qed.

(** ** main.js: the loop returns, and does so within its fuel *)

Lemma forEach_length (currentIdx steps : nat) :
  forall i indices rest',
    Main.forEach boxes iouThreshold currentIdx steps i indices = Normal rest' ->
    length rest' <= length indices.
Proof.
  induction steps as [|steps IH]; intros i indices rest' H; cbn in H.
  - injection H as <-. lia.
  - destruct (nth_error indices i) as [idx|]; [|exact (IH _ _ _ H)].
    destruct (Shared.calculateIoU_at boxes currentIdx idx) as [iou|]; [|discriminate].
    cbn in H. apply IH in H.
    destruct (iou >? iouThreshold)%js; [|exact H].
    pose proof (splice1_length _ i indices). lia.
Qed.

Lemma main_rounds_fuel (maxDetections : nat) (fuel1 : nat) :
  forall fuel2 indices selected,
    length indices <= fuel1 -> length indices <= fuel2 ->
    Main.rounds boxes iouThreshold maxDetections fuel1 indices selected
    = Main.rounds boxes iouThreshold maxDetections fuel2 indices selected.
Proof.
  induction fuel1 as [|fuel1 IH]; intros fuel2 indices selected H1 H2.
  - destruct indices; [|cbn in H1; lia]. destruct fuel2; reflexivity.
  - destruct indices as [|currentIdx rest]; [destruct fuel2; reflexivity|].
    destruct fuel2 as [|fuel2]; [cbn in H2; lia|]. cbn [Main.rounds length] in *.
    destruct (length selected <? maxDetections); [|reflexivity].
    destruct (Main.forEach boxes iouThreshold currentIdx (length rest) 0 rest)
      as [rest'|] eqn:E; [|reflexivity].
    cbn. apply forEach_length in E. apply IH; lia.
Qed.

(** ** yolo-worker.js: the same for its loop *)

Lemma removeOverlapping_length (currentIdx upto : nat) :
  forall indices rest',
    Worker.removeOverlapping boxes iouThreshold currentIdx upto indices = Normal rest' ->
    length rest' <= length indices.
Proof.
  induction upto as [|i IH]; intros indices rest' H; cbn in H.
  - injection H as <-. lia.
  - destruct (nth_error indices i) as [idx|]; [|discriminate].
    destruct (Shared.calculateIoU_at boxes currentIdx idx) as [iou|]; [|discriminate].
    cbn in H. apply IH in H.
    destruct (iou >? iouThreshold)%js; [|exact H].
    pose proof (splice1_length _ i indices). lia.
Qed.

Lemma worker_rounds_fuel (maxDetections : nat) (fuel1 : nat) :
  forall fuel2 indices selected,
    length indices <= fuel1 -> length indices <= fuel2 ->
    Worker.rounds boxes iouThreshold maxDetections fuel1 indices selected
    = Worker.rounds boxes iouThreshold maxDetections fuel2 indices selected.
Proof.
  induction fuel1 as [|fuel1 IH]; intros fuel2 indices selected H1 H2.
  - destruct indices; [|cbn in H1; lia]. destruct fuel2; reflexivity.
  - destruct indices as [|currentIdx rest]; [destruct fuel2; reflexivity|].
    destruct fuel2 as [|fuel2]; [cbn in H2; lia|]. cbn [Worker.rounds length] in *.
    destruct (length selected <? maxDetections); [|reflexivity].
    destruct (Worker.removeOverlapping boxes iouThreshold currentIdx (length rest) rest)
      as [rest'|] eqn:E; [|reflexivity].
    cbn. apply removeOverlapping_length in E. apply IH; lia.
Qed.

(** ** yolo-worker.js: every overlapping candidate goes *)

(** The backward loop is a filter: of the candidates it has looked at,
    those that overlap the accepted box are gone and the others stay in
    their order. *)
Lemma removeOverlapping_filter (currentIdx : nat) :
  currentIdx < length boxes ->
  forall upto indices,
    Forall (fun idx => idx < length boxes) indices ->
    upto <= length indices ->
    Worker.removeOverlapping boxes iouThreshold currentIdx upto indices
    = Normal (filter (fun idx => negb (Spec.overlaps boxes iouThreshold currentIdx idx))
                     (firstn upto indices)
              ++ skipn upto indices).
Proof.
  intros Hcur. induction upto as [|i IH]; intros indices Hall Hupto; [reflexivity|].
  cbn [Worker.removeOverlapping].
  destruct (nth_error indices i) as [idx|] eqn:Hi.
  2:{ apply nth_error_None in Hi. lia. }
  assert (Hidx : idx < length boxes).
  { rewrite Forall_forall in Hall. apply Hall. eapply nth_error_In; eauto. }
  rewrite (firstn_S_nth_error _ _ _ _ Hi), filter_app. cbn [filter].
  unfold Spec.overlaps at 2. unfold Shared.calculateIoU_at.
  destruct (nth_error boxes currentIdx) as [box1|] eqn:Hb1.
  2:{ apply nth_error_None in Hb1. lia. }
  destruct (nth_error boxes idx) as [box2|] eqn:Hb2.
  2:{ apply nth_error_None in Hb2. lia. }
  cbn [bind]. destruct (Shared.calculateIoU box1 box2 >? iouThreshold)%js; cbn [negb].
  - rewrite IH.
    + unfold splice1.
      rewrite firstn_app, length_firstn, firstn_firstn.
      replace (Nat.min i (length indices)) with i by lia.
      replace (i - i) with 0 by lia. rewrite Nat.min_id. cbn [firstn].
      rewrite skipn_app, length_firstn.
      replace (Nat.min i (length indices)) with i by lia.
      replace (i - i) with 0 by lia. cbn [skipn].
      rewrite skipn_firstn_comm. replace (i - i) with 0 by lia. cbn [firstn].
      now rewrite !app_nil_r.
    + now apply (splice1_Forall _ _ i indices idx).
    + unfold splice1. rewrite length_app, length_firstn, length_skipn. lia.
  - rewrite IH by (auto; lia). rewrite (skipn_nth_error _ _ _ _ Hi).
    now rewrite <- app_assoc.
Qed.

Lemma ForallOrdPairs_snoc (A : Type) (R : A -> A -> Prop) (l : list A) (a : A) :
  ForallOrdPairs R l -> Forall (fun b => R b a) l -> ForallOrdPairs R (l ++ [a]).
Proof.
  induction 1 as [|b l Hb Hl IH]; intros Hall; cbn.
  - constructor; constructor.
  - inversion Hall; subst. constructor.
    + apply Forall_app. split; [assumption|]. constructor; [assumption|constructor].
    + now apply IH.
Qed.

(** The worker's loop returns, and no box it selects overlaps a box it
    selected before. *)
Lemma worker_rounds_no_overlap (maxDetections : nat) (fuel : nat) :
  forall indices selected,
    Forall (fun idx => idx < length boxes) indices ->
    ForallOrdPairs (fun a b => Spec.overlaps boxes iouThreshold a b = false) selected ->
    Forall (fun s => Forall (fun r => Spec.overlaps boxes iouThreshold s r = false) indices)
           selected ->
    exists result,
      Worker.rounds boxes iouThreshold maxDetections fuel indices selected = Normal result /\
      ForallOrdPairs (fun a b => Spec.overlaps boxes iouThreshold a b = false) result.
Proof.
  induction fuel as [|fuel IH]; intros indices selected Hall Hsel Hcross;
    cbn [Worker.rounds].
  - eauto.
  - destruct indices as [|currentIdx rest]; [eauto|].
    destruct (length selected <? maxDetections); [|eauto].
    inversion Hall as [|? ? Hcur Hrest]; subst.
    rewrite (removeOverlapping_filter currentIdx Hcur (length rest) rest Hrest (le_n _)).
    rewrite firstn_all, skipn_all, app_nil_r. cbn [bind].
    apply IH.
    + apply Forall_forall. intros idx Hin. apply filter_In in Hin.
      rewrite Forall_forall in Hrest. now apply Hrest.
    + apply ForallOrdPairs_snoc; [assumption|].
      eapply Forall_impl; [|exact Hcross]. cbn. intros s Hs. now inversion Hs.
    + apply Forall_app. split.
      * eapply Forall_impl; [|exact Hcross]. cbn. intros s Hs.
        inversion Hs as [|? ? _ Hs']; subst.
        apply Forall_forall. intros idx Hin. apply filter_In in Hin.
        rewrite Forall_forall in Hs'. now apply Hs'.
      * constructor; [|constructor].
        apply Forall_forall. intros idx Hin. apply filter_In in Hin.
        destruct Hin as [_ Hkeep]. now apply negb_true_iff in Hkeep.
Qed.

End SuppressionFacts.

Lemma insert_In (a : ScoredIndex) (sorted : list ScoredIndex) (b : ScoredIndex) :
  In b (Shared.insert a sorted) <-> b = a \/ In b sorted.
Proof.
  induction sorted as [|c rest IH]; cbn.
  - intuition.
  - destruct (Shared.comparator a c >? pzero)%js; cbn; rewrite ?IH; intuition.
Qed.

Lemma sort_In (items : list ScoredIndex) (b : ScoredIndex) :
  In b (Shared.sort items) <-> In b items.
Proof.
  induction items as [|a rest IH]; cbn; [tauto|].
  rewrite insert_In, IH. intuition.
Qed.

Lemma sortedIndices_bound (scores : list num) :
  Forall (fun idx => idx < length scores) (Shared.sortedIndices scores).
Proof.
  apply Forall_forall. intros idx Hin. unfold Shared.sortedIndices in Hin.
  apply in_map_iff in Hin. destruct Hin as (item & <- & Hin).
  apply sort_In, in_map_iff in Hin. destruct Hin as ([sc j] & <- & Hin).
  apply in_combine_r, in_seq in Hin. cbn. lia.
Qed.

(** The sort is stable: equal scores keep their original order. *)
Lemma sortedIndices_stable :
  Shared.sortedIndices [dec 9 1; dec 8 1; dec 95 2; dec 8 1; dec 99 2] = [4; 2; 0; 1; 3].
Proof. vm_compute. reflexivity. Qed.

(** X5.  The suppression of yolo-worker.js does what C1 asks of every
    round: with a box for every score it returns, and no selected box
    has an IoU above the threshold with a box selected before it. *)
Lemma worker_nms_no_overlap (boxes : list Box) (scores : list num)
      (iouThreshold : num) (maxDetections : nat) :
  length scores <= length boxes ->
  exists selected,
    Worker.nonMaxSuppression boxes scores iouThreshold maxDetections = Normal selected /\
    ForallOrdPairs (fun a b => Spec.overlaps boxes iouThreshold a b = false) selected.
Proof.
  intros Hlen. unfold Worker.nonMaxSuppression.
  apply worker_rounds_no_overlap.
  - eapply Forall_impl; [|apply sortedIndices_bound]. cbn. intros idx H. lia.
  - constructor.
  - constructor.
Qed.

(** The example of the specification: two boxes with IoU [0.9], scores
    [0.8] and [0.6], threshold [0.45].  Only the [0.8] box is selected,
    in either script and whichever of the two comes first. *)
Lemma nms_two_overlapping :
  Shared.calculateIoU Sample.tall Sample.short = dec 9 1 /\
  Main.nonMaxSuppression [Sample.tall; Sample.short] [dec 8 1; dec 6 1] (dec 45 2) 100
  = Normal [0] /\
  Main.nonMaxSuppression [Sample.tall; Sample.short] [dec 6 1; dec 8 1] (dec 45 2) 100
  = Normal [1] /\
  Worker.nonMaxSuppression [Sample.tall; Sample.short] [dec 8 1; dec 6 1] (dec 45 2) 100
  = Normal [0].
Proof. repeat split; vm_compute; reflexivity. Qed.

(** Two boxes with IoU [0.1] at the same threshold are both selected. *)
Lemma nms_two_apart :
  Shared.calculateIoU Sample.tall (Sample.box 0 0 10 1) = dec 1 1 /\
  Main.nonMaxSuppression [Sample.tall; Sample.box 0 0 10 1] [dec 8 1; dec 6 1] (dec 45 2) 100
  = Normal [0; 1].
Proof. repeat split; vm_compute; reflexivity. Qed.

(** C1, the code at the failing input.  Three copies of one box with
    scores [0.9], [0.8], [0.7] at threshold [0.45]: after box [0] is
    accepted, [forEach] removes candidate [1], the splice moves
    candidate [2] into the position just visited, and the loop never
    looks at it.  Candidate [2] has IoU [1] with the accepted box, stays
    in the candidate list, and is selected in the next round. *)
Theorem main_nms_skips_candidate :
  Shared.calculateIoU_at Sample.threeBoxes 0 2 = Normal (of_Z 1) /\
  (of_Z 1 >? dec 45 2)%js = true /\
  Main.forEach Sample.threeBoxes (dec 45 2) 0 2 0 [1; 2] = Normal [2] /\
  Main.nonMaxSuppression Sample.threeBoxes Sample.threeScores (dec 45 2) 100
  = Normal [0; 2].
Proof. repeat split; vm_compute; reflexivity. Qed.

(** C9, the code at the failing input.  On the same three boxes the
    worker's backward loop removes both overlapping candidates, so the
    two scripts select different indices; the difference shows in the
    detections returned for a raw output with three such anchors. *)
Theorem main_worker_nms_differ :
  Main.nonMaxSuppression Sample.threeBoxes Sample.threeScores
    (iouThreshold MODEL_CONFIG) (maxDetections MODEL_CONFIG) = Normal [0; 2] /\
  Worker.nonMaxSuppression Sample.threeBoxes Sample.threeScores
    (iouThreshold MODEL_CONFIG) (maxDetections MODEL_CONFIG) = Normal [0] /\
  Main.processYOLOOutput Sample.threeAnchors (of_Z 640) (of_Z 480)
  <> Worker.processYOLOOutput Sample.threeAnchors (of_Z 640) (of_Z 480).
Proof.
  repeat split; try (vm_compute; reflexivity).
  vm_compute. discriminate.
Qed.

(* ================================================================== *)
(** * The decoder *)
(* ================================================================== *)

Section DecoderFacts.

Variable features : list (list num).
Variable i : nat.

Lemma bestClass_S (n : nat) :
  Shared.bestClass features (S n) i
  = Shared.classStep features i (Shared.bestClass features n i) n.
Proof.
  unfold Shared.bestClass. rewrite seq_S, fold_left_app. reflexivity.
Qed.

Lemma bestClass_scanned (n : nat) : Spec.scanned features i n (Shared.bestClass features n i).
Proof.
  induction n as [|n IH].
  - cbn. repeat split; try (intros; lia). left. repeat split; intros; lia.
  - rewrite bestClass_S. unfold Shared.classStep.
    destruct (Shared.bestClass features n i) as [m k]. cbn [fst].
    destruct IH as (Hnan & Hub & Hcase). unfold gt in *.
    destruct (SFltb m (Shared.classCell features n i)) eqn:Hgt; cbn; unfold gt.
    + set (sc := Shared.classCell features n i) in *.
      assert (Hpos : SFltb pzero sc = true).
      { destruct Hcase as [(-> & _)|(_ & _ & Hp & _)]; [exact Hgt|].
        exact (ltb_trans _ _ _ Hp Hgt). }
      split; [exact (proj2 (ltb_not_nan _ _ Hgt))|]. split.
      * intros c Hc. destruct (Nat.eq_dec c n) as [->|Hne].
        -- apply ltb_irrefl.
        -- destruct (SFltb sc (Shared.classCell features c i)) eqn:E; [|reflexivity].
           rewrite <- (Hub c ltac:(lia)). symmetry.
           exact (ltb_trans _ _ _ Hgt E).
      * right. repeat split; try lia; try assumption.
        intros c Hc.
        destruct (SFleb sc (Shared.classCell features c i)) eqn:E; [|reflexivity].
        rewrite <- (Hub c Hc). symmetry.
        exact (ltb_leb_trans _ _ _ Hgt E).
    + split; [exact Hnan|]. split.
      * intros c Hc. destruct (Nat.eq_dec c n) as [->|Hne]; [exact Hgt|].
        apply Hub; lia.
      * destruct Hcase as [(-> & -> & H0)|(Hk & Hv & Hp & Hfirst)].
        -- left. repeat split. intros c Hc.
           destruct (Nat.eq_dec c n) as [->|Hne]; [exact Hgt|]. apply H0; lia.
        -- right. repeat split; try lia; assumption.
Qed.

(** With a threshold that is not negative, the running maximum
    exceeds it exactly when some class confidence does. *)
Lemma bestClass_exceeds (n : nat) (t : num) :
  (pzero >? t)%js = false ->
  ((fst (Shared.bestClass features n i) >? t)%js = true <->
   exists c, c < n /\ (Shared.classCell features c i >? t)%js = true).
Proof.
  intros Ht. pose proof (bestClass_scanned n) as Hs.
  destruct (Shared.bestClass features n i) as [m k]. cbn [fst].
  destruct Hs as (Hnan & Hub & Hcase). unfold gt in *. split.
  - intros Hm. destruct Hcase as [(-> & _)|(Hk & Hv & _)]; [congruence|].
    exists k. rewrite Hv. auto.
  - intros (c & Hc & Hgt).
    destruct (ltb_not_nan _ _ Hgt) as [_ Hcn].
    pose proof (not_ltb_leb _ _ Hnan Hcn (Hub c Hc)) as Hle.
    exact (ltb_leb_trans _ _ _ Hgt Hle).
Qed.

Lemma boxCell_present (r : nat) :
  r < length features ->
  Shared.boxCell features r i = Normal (nth i (nth r features []) NaN).
Proof.
  intros Hr. unfold Shared.boxCell.
  destruct (nth_error features r) as [row|] eqn:E.
  - now rewrite (nth_error_nth _ _ _ E).
  - apply nth_error_None in E. lia.
Qed.

End DecoderFacts.

Lemma decodeAnchor_cases (cfg : Config) (features : list (list num))
      (imgWidth imgHeight : num) (n i : nat) :
  4 <= length features ->
  exists cx cy w h,
    Shared.boxCell features 0 i = Normal cx /\
    Shared.boxCell features 1 i = Normal cy /\
    Shared.boxCell features 2 i = Normal w /\
    Shared.boxCell features 3 i = Normal h /\
    Shared.decodeAnchor cfg features imgWidth imgHeight n i
    = Normal
        (if (fst (Shared.bestClass features n i) >? scoreThreshold cfg)%js then
           Some {| det_x := ((cx - w / of_Z 2) * imgWidth)%js;
                   det_y := ((cy - h / of_Z 2) * imgHeight)%js;
                   det_width := (w * imgWidth)%js;
                   det_height := (h * imgHeight)%js;
                   score := fst (Shared.bestClass features n i);
                   class := snd (Shared.bestClass features n i) |}
         else None).
Proof.
  intros Hrows. unfold Shared.decodeAnchor.
  rewrite !boxCell_present by lia. do 4 eexists. repeat (split; [reflexivity|]).
  cbn [bind]. destruct (Shared.bestClass features n i) as [m k]. cbn [fst snd].
  destruct (m >? scoreThreshold cfg)%js; reflexivity.
Qed.

(** The anchor loop returns, in anchor order, what each anchor pushed. *)
Lemma decodeFrom_In (cfg : Config) (features : list (list num))
      (imgWidth imgHeight : num) (n : nat) (anchors : list nat) :
  forall acc dets,
    Shared.decodeFrom cfg features imgWidth imgHeight n anchors acc = Normal dets ->
    forall d, In d dets <->
              In d acc \/
              exists i, In i anchors /\
                        Shared.decodeAnchor cfg features imgWidth imgHeight n i
                        = Normal (Some d).
Proof.
  induction anchors as [|a later IH]; intros acc dets Hrun d; cbn in Hrun.
  - injection Hrun as <-. split; [auto|]. intros [H|(j & [] & _)]. exact H.
  - destruct (Shared.decodeAnchor cfg features imgWidth imgHeight n a)
      as [[pushed|]|msg] eqn:Ha; cbn in Hrun; try discriminate.
    + rewrite (IH _ _ Hrun d), in_app_iff. cbn. split.
      * intros [[H|[<-|[]]]|(j & Hj & Hd)]; eauto.
      * intros [H|(j & [<-|Hj] & Hd)]; eauto.
        rewrite Ha in Hd. injection Hd as <-. auto.
    + rewrite (IH _ _ Hrun d). cbn. split.
      * intros [H|(j & Hj & Hd)]; eauto.
      * intros [H|(j & [<-|Hj] & Hd)]; eauto. congruence.
Qed.

(** With its four box rows present, decoding never throws. *)
Lemma decodeFrom_total (cfg : Config) (features : list (list num))
      (imgWidth imgHeight : num) (n : nat) (anchors : list nat) :
  4 <= length features ->
  forall acc, exists dets,
    Shared.decodeFrom cfg features imgWidth imgHeight n anchors acc = Normal dets.
Proof.
  intros Hrows. induction anchors as [|a later IH]; intros acc; cbn.
  - eauto.
  - destruct (decodeAnchor_cases cfg features imgWidth imgHeight n a Hrows)
      as (cx & cy & w & h & _ & _ & _ & _ & ->).
    cbn. apply IH.
Qed.

Lemma decode_total (cfg : Config) (features : list (list num)) (imgWidth imgHeight : num) :
  4 <= length features ->
  exists dets, Shared.decode cfg features imgWidth imgHeight = Normal dets.
Proof.
  intros Hrows. unfold Shared.decode.
  destruct (nth_error features 0) as [row0|] eqn:E.
  - now apply decodeFrom_total.
  - apply nth_error_None in E. lia.
Qed.

(** The claim of C5 fails on an anchor whose two class confidences are
    both exactly [0.25], the threshold of [MODEL_CONFIG]: its maximum
    is not below the threshold, and the decoder discards it. *)
Lemma decode_at_threshold_discards :
  fst (Shared.bestClass Sample.atThreshold 2 0) = scoreThreshold MODEL_CONFIG /\
  (fst (Shared.bestClass Sample.atThreshold 2 0) <? scoreThreshold MODEL_CONFIG)%js = false /\
  Shared.decodeAnchor MODEL_CONFIG Sample.atThreshold (of_Z 640) (of_Z 480) 2 0
  = Normal None /\
  Shared.decode MODEL_CONFIG Sample.atThreshold (of_Z 640) (of_Z 480) = Normal [].
Proof. repeat split; vm_compute; reflexivity. Qed.

(** C5, amended.  For every anchor, the decoder discards the anchor
    exactly when its maximum class confidence (the running maximum
    started at [0]) is not strictly greater than [scoreThreshold]; so
    every emitted detection has a score strictly above the threshold,
    at most [1] when no class confidence exceeds [1], and an anchor
    whose maximum equals the threshold exactly is discarded.  For a
    threshold that is not negative the anchor is kept exactly when some
    class confidence is strictly greater than the threshold. *)
Theorem decodeAnchor_threshold (cfg : Config) (features : list (list num))
        (imgWidth imgHeight : num) (numClasses i : nat) :
  4 <= length features ->
  let maxScore := fst (Shared.bestClass features numClasses i) in
  let t := scoreThreshold cfg in
  let pushed := Shared.decodeAnchor cfg features imgWidth imgHeight numClasses i in
  (pushed = Normal None <-> (maxScore >? t)%js = false) /\
  (forall d, pushed = Normal (Some d) ->
             score d = maxScore /\ (score d >? t)%js = true) /\
  (maxScore = t -> pushed = Normal None) /\
  ((pzero >? t)%js = false ->
   ((maxScore >? t)%js = true <->
    exists c, c < numClasses /\ (Shared.classCell features c i >? t)%js = true)) /\
  ((forall c, c < numClasses -> (Shared.classCell features c i >? of_Z 1)%js = false) ->
   (maxScore >? of_Z 1)%js = false).
Proof.
  intros Hrows maxScore t pushed.
  destruct (decodeAnchor_cases cfg features imgWidth imgHeight numClasses i Hrows)
    as (cx & cy & w & h & _ & _ & _ & _ & Hd).
  fold maxScore t pushed in Hd.
  assert (Hnone : pushed = Normal None <-> (maxScore >? t)%js = false).
  { rewrite Hd. destruct (maxScore >? t)%js; split; congruence. }
  split; [exact Hnone|]. split; [|split; [|split]].
  - intros d Hp. rewrite Hd in Hp.
    destruct (maxScore >? t)%js eqn:Hgt; [|discriminate].
    injection Hp as <-. cbn. auto.
  - intros Heq. apply Hnone. rewrite Heq. apply ltb_irrefl.
  - intros Ht. apply bestClass_exceeds. exact Ht.
  - intros Hle. pose proof (bestClass_scanned features i numClasses) as Hs.
    subst maxScore. destruct (Shared.bestClass features numClasses i) as [m k].
    cbn [fst]. destruct Hs as (_ & _ & [(-> & _)|(Hk & <- & _)]).
    + reflexivity.
    + apply Hle, Hk.
Qed.

Lemma decodeAnchor_threshold_witness :
  Shared.decodeAnchor MODEL_CONFIG Sample.atThreshold (of_Z 640) (of_Z 480) 2 0
  = Normal None <->
  (fst (Shared.bestClass Sample.atThreshold 2 0) >? scoreThreshold MODEL_CONFIG)%js = false.
Proof.
  refine (proj1 (decodeAnchor_threshold MODEL_CONFIG Sample.atThreshold
                   (of_Z 640) (of_Z 480) 2 0 _)).
  simpl. lia.
Defined.

(** What the decode loop pushed for an anchor, for any threshold that
    is not negative. *)
Lemma decoded_from_anchor (cfg : Config) (features : list (list num))
      (imgWidth imgHeight : num) (i : nat) (d : Detection) :
  (pzero >? scoreThreshold cfg)%js = false ->
  Shared.decodeAnchor cfg features imgWidth imgHeight (length features - 4) i
  = Normal (Some d) ->
  let numClasses := length features - 4 in
  exists cx cy w h,
    Shared.boxCell features 0 i = Normal cx /\
    Shared.boxCell features 1 i = Normal cy /\
    Shared.boxCell features 2 i = Normal w /\
    Shared.boxCell features 3 i = Normal h /\
    det_x d = ((cx - w / of_Z 2) * imgWidth)%js /\
    det_y d = ((cy - h / of_Z 2) * imgHeight)%js /\
    det_width d = (w * imgWidth)%js /\
    det_height d = (h * imgHeight)%js /\
    class d < numClasses /\
    score d = Shared.classCell features (class d) i /\
    (forall c, c < numClasses -> (Shared.classCell features c i >? score d)%js = false) /\
    (forall c, c < class d -> SFleb (score d) (Shared.classCell features c i) = false).
Proof.
  intros Ht Hpush numClasses. fold numClasses in Hpush.
  unfold Shared.decodeAnchor in Hpush.
  destruct (Shared.boxCell features 0 i) as [cx|] eqn:H0; [|discriminate].
  destruct (Shared.boxCell features 1 i) as [cy|] eqn:H1; [|discriminate].
  destruct (Shared.boxCell features 2 i) as [w|] eqn:H2; [|discriminate].
  destruct (Shared.boxCell features 3 i) as [h|] eqn:H3; [|discriminate].
  cbn [bind] in Hpush.
  pose proof (bestClass_scanned features i numClasses) as Hs.
  destruct (Shared.bestClass features numClasses i) as [m k].
  destruct (m >? scoreThreshold cfg)%js eqn:Hgt; [|discriminate].
  injection Hpush as <-. cbn [det_x det_y det_width det_height score class].
  exists cx, cy, w, h.
  do 8 (split; [reflexivity|]).
  destruct Hs as (_ & Hub & [(-> & _)|(Hk & Hv & _ & Hfirst)]).
  - congruence.
  - repeat split; auto.
Qed.

(** C6.  The decoder emits, for every retained anchor [i], one
    detection, and every emitted detection comes from such an anchor,
    with normalized center [(cx, cy)] and size [(w, h)] read from rows
    [0..3], and is exactly
    [x = (cx - w/2) * imageWidth], [y = (cy - h/2) * imageHeight],
    [width = w * imageWidth], [height = h * imageHeight]; its score is
    the confidence of its class, no class confidence of the anchor is
    greater, and no earlier class reaches the score: the class is the
    smallest index attaining the maximum. *)
Theorem decode_detection (features : list (list num)) (imgWidth imgHeight : num)
        (dets : list Detection) :
  Shared.decode MODEL_CONFIG features imgWidth imgHeight = Normal dets ->
  let numClasses := length features - 4 in
  (forall i d,
      i < length (nth 0 features []) ->
      Shared.decodeAnchor MODEL_CONFIG features imgWidth imgHeight numClasses i
      = Normal (Some d) ->
      In d dets) /\
  (forall d,
      In d dets ->
      exists i cx cy w h,
        i < length (nth 0 features []) /\
        Shared.boxCell features 0 i = Normal cx /\
        Shared.boxCell features 1 i = Normal cy /\
        Shared.boxCell features 2 i = Normal w /\
        Shared.boxCell features 3 i = Normal h /\
        det_x d = ((cx - w / of_Z 2) * imgWidth)%js /\
        det_y d = ((cy - h / of_Z 2) * imgHeight)%js /\
        det_width d = (w * imgWidth)%js /\
        det_height d = (h * imgHeight)%js /\
        class d < numClasses /\
        score d = Shared.classCell features (class d) i /\
        (forall c, c < numClasses ->
                   (Shared.classCell features c i >? score d)%js = false) /\
        (forall c, c < class d ->
                   SFleb (score d) (Shared.classCell features c i) = false)).
Proof.
  intros Hdec numClasses. unfold Shared.decode in Hdec.
  destruct (nth_error features 0) as [row0|] eqn:Hrow0; [|discriminate].
  rewrite (nth_error_nth _ _ _ Hrow0).
  pose proof (decodeFrom_In _ _ _ _ _ _ _ _ Hdec) as Hin.
  split.
  - intros i d Hi Hpush. apply Hin. right. exists i. split; [|exact Hpush].
    apply in_seq. lia.
  - intros d Hd. apply Hin in Hd. destruct Hd as [[]|(i & Hi & Hpush)].
    apply in_seq in Hi. exists i.
    destruct (decoded_from_anchor MODEL_CONFIG features imgWidth imgHeight i d
                eq_refl Hpush) as (cx & cy & w & h & Hprops).
    exists cx, cy, w, h. split; [lia|exact Hprops].
Qed.

Lemma decode_detection_witness :
  In {| det_x := of_Z 256; det_y := of_Z 192; det_width := of_Z 128;
        det_height := of_Z 96; score := dec 9 1; class := 0 |}
     [ {| det_x := of_Z 256; det_y := of_Z 192; det_width := of_Z 128;
          det_height := of_Z 96; score := dec 9 1; class := 0 |};
       {| det_x := of_Z 256; det_y := of_Z 192; det_width := of_Z 128;
          det_height := of_Z 96; score := dec 8 1; class := 0 |};
       {| det_x := of_Z 256; det_y := of_Z 192; det_width := of_Z 128;
          det_height := of_Z 96; score := dec 7 1; class := 0 |} ].
Proof.
  refine (proj1 (decode_detection (nth 0 Sample.threeAnchors [])
                   (of_Z 640) (of_Z 480) _ _) 0 _ _ _).
  - vm_compute. reflexivity.
  - simpl. lia.
  - vm_compute. reflexivity.
Defined.

(** What [processYOLOOutput] returns, in either script, is a selection
    of what the decoder emitted. *)
Lemma processWith_selects
      (nonMaxSuppression : list Box -> list num -> num -> nat -> completion (list nat))
      (cfg : Config) (output : list (list (list num))) (imgWidth imgHeight : num)
      (finals : list (option Detection)) :
  Shared.processWith nonMaxSuppression cfg output imgWidth imgHeight = Normal finals ->
  exists features dets,
    nth_error output 0 = Some features /\
    Shared.decode cfg features imgWidth imgHeight = Normal dets /\
    forall d, In (Some d) finals -> In d dets.
Proof.
  unfold Shared.processWith. intros H.
  destruct (nth_error output 0) as [features|]; [|discriminate].
  destruct (Shared.decode cfg features imgWidth imgHeight) as [dets|] eqn:Hdec;
    [|discriminate].
  cbn [bind] in H.
  destruct (nonMaxSuppression _ _ _ _) as [selected|]; [|discriminate].
  cbn [bind] in H. injection H as <-.
  exists features, dets. split; [reflexivity|]. split; [exact Hdec|].
  intros d Hd. apply in_map_iff in Hd. destruct Hd as (idx & Hidx & _).
  eapply nth_error_In; eauto.
Qed.

(* ================================================================== *)
(** * The result cache *)
(* ================================================================== *)

Section ListFacts.

Variable A : Type.

Lemma tl_skipn (j : nat) (l : list A) : tl (skipn j l) = skipn (S j) l.
Proof.
  revert l. induction j as [|j IH]; intros [|a l]; try reflexivity.
  apply (IH l).
Qed.

Lemma In_skipn (j : nat) (l : list A) (a : A) : In a (skipn j l) -> In a l.
Proof.
  revert l. induction j as [|j IH]; intros [|b l] H; try exact H.
  right. now apply IH.
Qed.

Lemma NoDup_skipn (j : nat) (l : list A) : NoDup l -> NoDup (skipn j l).
Proof.
  revert l. induction j as [|j IH]; intros [|b l] H; try exact H.
  apply IH. now inversion H.
Qed.

End ListFacts.

Section MapFacts.

Variable V : Type.
Implicit Types (m : Map V) (k : string) (v : V).

Lemma map_get_None_keys k m : map_get k m = None <-> ~ In k (map_keys m).
Proof.
  induction m as [|[k' v'] rest IH]; cbn.
  - tauto.
  - destruct (String.eqb_spec k' k) as [->|Hne].
    + split; [discriminate|]. intros H. exfalso. auto.
    + rewrite IH. tauto.
Qed.

Lemma map_has_keys k m : map_has k m = true <-> In k (map_keys m).
Proof.
  unfold map_has. pose proof (map_get_None_keys k m) as H.
  destruct (map_get k m).
  - split; [|reflexivity]. intros _.
    destruct (in_dec string_dec k (map_keys m)) as [Hin|Hout]; [exact Hin|].
    apply H in Hout. discriminate.
  - split; [discriminate|]. intros Hin. exfalso. now apply (proj1 H).
Qed.

Lemma map_set_fresh k v m : map_get k m = None -> map_set k v m = m ++ [(k, v)].
Proof.
  induction m as [|[k' v'] rest IH]; cbn; [reflexivity|].
  destruct (String.eqb k' k); [discriminate|]. intros H. now rewrite IH.
Qed.

Lemma map_get_set k v m : map_get k (map_set k v m) = Some v.
Proof.
  induction m as [|[k' v'] rest IH]; cbn.
  - now rewrite String.eqb_refl.
  - destruct (String.eqb k' k) eqn:E; cbn; rewrite E; [reflexivity|exact IH].
Qed.

Lemma map_set_length k v m : length (map_set k v m) <= S (length m).
Proof.
  induction m as [|[k' v'] rest IH]; cbn; [lia|].
  destruct (String.eqb k' k); cbn; lia.
Qed.

Lemma map_delete_absent k m : ~ In k (map_keys m) -> map_delete k m = m.
Proof.
  induction m as [|[k' v'] rest IH]; cbn; [reflexivity|]. intros H.
  destruct (String.eqb_spec k' k) as [->|Hne]; cbn.
  - exfalso. auto.
  - f_equal. apply IH. tauto.
Qed.

Lemma map_delete_length k m : length (map_delete k m) <= length m.
Proof. apply filter_length_le. Qed.

Lemma map_delete_first_length k v m :
  length (map_delete k ((k, v) :: m)) <= length m.
Proof.
  cbn. rewrite String.eqb_refl. cbn. apply map_delete_length.
Qed.

Lemma map_set_keys k v m :
  map_keys (map_set k v m)
  = if map_has k m then map_keys m else map_keys m ++ [k].
Proof.
  unfold map_has, map_keys. induction m as [|[k' v'] rest IH]; cbn; [reflexivity|].
  destruct (String.eqb k' k); cbn; [reflexivity|].
  rewrite IH. now destruct (map_get k rest).
Qed.

Lemma map_set_NoDup k v m : NoDup (map_keys m) -> NoDup (map_keys (map_set k v m)).
Proof.
  intros Hnd. rewrite map_set_keys. destruct (map_has k m) eqn:Hhas; [exact Hnd|].
  assert (Hout : ~ In k (map_keys m)).
  { intros Hin. apply map_has_keys in Hin. congruence. }
  clear Hhas. induction (map_keys m) as [|k' ks IH]; cbn.
  - constructor; [intros []|constructor].
  - inversion Hnd; subst. constructor.
    + rewrite in_app_iff. cbn. cbn in Hout. intuition.
    + apply IH; [assumption|]. cbn in Hout. tauto.
Qed.

Lemma map_delete_keys k m :
  map_keys (map_delete k m) = filter (fun k' => negb (String.eqb k' k)) (map_keys m).
Proof.
  unfold map_keys, map_delete. induction m as [|[k' v'] rest IH]; cbn; [reflexivity|].
  destruct (String.eqb k' k); cbn; now rewrite IH.
Qed.

Lemma map_delete_NoDup k m : NoDup (map_keys m) -> NoDup (map_keys (map_delete k m)).
Proof. intros Hnd. rewrite map_delete_keys. now apply NoDup_filter. Qed.

End MapFacts.

(** Storing never takes the cache over its capacity. *)
Lemma cacheResults_size (k : string) (v : Main.Detections) (cache : Map Main.Detections) :
  map_size cache <= Main.MAX_CACHE_SIZE ->
  map_size (Main.cacheResults k v cache) <= Main.MAX_CACHE_SIZE.
Proof.
  unfold Main.cacheResults, map_size, Main.MAX_CACHE_SIZE. intros Hsize.
  destruct (10 <=? length cache) eqn:Hfull.
  - apply Nat.leb_le in Hfull.
    destruct cache as [|[k0 v0] rest]; cbn [map_firstKey]; [cbn in Hfull; lia|].
    pose proof (map_set_length _ k v (map_delete k0 ((k0, v0) :: rest))).
    pose proof (map_delete_first_length _ k0 v0 rest). cbn in Hsize. lia.
  - apply Nat.leb_gt in Hfull.
    pose proof (map_set_length _ k v cache). lia.
Qed.

Lemma cacheResults_NoDup (k : string) (v : Main.Detections) (cache : Map Main.Detections) :
  NoDup (map_keys cache) -> NoDup (map_keys (Main.cacheResults k v cache)).
Proof.
  intros Hnd. unfold Main.cacheResults. apply map_set_NoDup.
  destruct (Main.MAX_CACHE_SIZE <=? map_size cache); [|exact Hnd].
  destruct (map_firstKey cache); [|exact Hnd]. now apply map_delete_NoDup.
Qed.

(** Below capacity a fresh key is appended; at capacity the oldest
    entry leaves first. *)
Lemma cacheResults_fresh (k : string) (v : Main.Detections) (cache : Map Main.Detections) :
  NoDup (map_keys cache) -> ~ In k (map_keys cache) ->
  map_size cache <= Main.MAX_CACHE_SIZE ->
  Main.cacheResults k v cache
  = (if map_size cache <? Main.MAX_CACHE_SIZE then cache else tl cache) ++ [(k, v)].
Proof.
  unfold Main.cacheResults, map_size, Main.MAX_CACHE_SIZE. intros Hnd Hk Hsize.
  destruct (10 <=? length cache) eqn:Hfull.
  - apply Nat.leb_le in Hfull.
    replace (length cache <? 10) with false by (symmetry; apply Nat.ltb_ge; lia).
    destruct cache as [|[k0 v0] rest]; [cbn in Hfull; lia|].
    cbn [map_firstKey tl]. cbn in Hnd, Hk. inversion Hnd as [|? ? Hk0 Hnd']; subst.
    replace (map_delete k0 ((k0, v0) :: rest)) with rest.
    + apply map_set_fresh. apply map_get_None_keys. tauto.
    + cbn. rewrite String.eqb_refl. cbn. symmetry. now apply map_delete_absent.
  - apply Nat.leb_gt in Hfull.
    replace (length cache <? 10) with true by (symmetry; apply Nat.ltb_lt; lia).
    apply map_set_fresh. now apply map_get_None_keys.
Qed.

(** After any number of results with distinct keys were stored, the
    cache holds the last ten of them, in the order they came. *)
Lemma stored_last_ten (entries : list (string * Main.Detections)) :
  NoDup (map fst entries) ->
  Spec.stored entries = skipn (length entries - Main.MAX_CACHE_SIZE) entries.
Proof.
  unfold Spec.stored, Main.MAX_CACHE_SIZE.
  induction entries as [|e entries IH] using rev_ind; intros Hnd; [reflexivity|].
  rewrite map_app in Hnd. cbn in Hnd.
  assert (Hnd' : NoDup (map fst entries)) by (eapply NoDup_app_remove_r; eauto).
  assert (Hfresh : ~ In (fst e) (map fst entries)).
  { apply NoDup_remove_2 in Hnd. now rewrite app_nil_r in Hnd. }
  rewrite fold_left_app. cbn [fold_left]. rewrite (IH Hnd'). clear IH.
  set (n := length entries).
  assert (Hsk : map_keys (skipn (n - 10) entries) = skipn (n - 10) (map fst entries)).
  { unfold map_keys. now rewrite skipn_map. }
  assert (Hlen : length (skipn (n - 10) entries) = n - (n - 10))
    by (rewrite length_skipn; reflexivity).
  rewrite cacheResults_fresh.
  - unfold map_size, Main.MAX_CACHE_SIZE. rewrite Hlen, length_app. cbn [length].
    fold n. destruct (n - (n - 10) <? 10) eqn:Hlt.
    + apply Nat.ltb_lt in Hlt.
      replace (n - 10) with 0 by lia. replace (n + 1 - 10) with 0 by lia.
      destruct e; reflexivity.
    + apply Nat.ltb_ge in Hlt.
      replace (n + 1 - 10) with (S (n - 10)) by lia.
      rewrite skipn_app. replace (S (n - 10) - length entries) with 0 by (fold n; lia).
      cbn [skipn]. destruct e. cbn [fst snd]. f_equal.
      apply tl_skipn.
  - rewrite Hsk. now apply NoDup_skipn.
  - rewrite Hsk. intros Hin. apply Hfresh. eapply In_skipn. exact Hin.
  - unfold map_size, Main.MAX_CACHE_SIZE. rewrite Hlen. lia.
Qed.

(* ================================================================== *)
(** * The orchestrator *)
(* ================================================================== *)

(** The four ways through [detectMedicine]. *)

Lemma detect_hit (st : Main.State) (c : Main.Call) (cached : Main.Detections) :
  map_get (Spec.keyOf c) (Main.detectionCache st) = Some cached ->
  let out := Main.detectMedicine st c in
  Main.result out = Normal cached /\
  Main.attempts out = [] /\
  Main.detectionCache (Main.final out) = Main.detectionCache st /\
  Main.useWebWorker (Main.final out) = Main.useWebWorker st /\
  Main.yoloWorker (Main.final out) = Main.yoloWorker st /\
  Main.inferenceCount (Main.performanceMetrics (Main.final out))
  = Main.inferenceCount (Main.performanceMetrics st) /\
  Main.cachedResults (Main.performanceMetrics (Main.final out))
  = (Main.cachedResults (Main.performanceMetrics st) + 1)%N.
Proof.
  intros Hhit. unfold Spec.keyOf in Hhit.
  unfold Main.detectMedicine, Main.tryBlock. rewrite Hhit. cbn.
  repeat split.
Qed.

Lemma detect_worker_ok (st : Main.State) (c : Main.Call) (dets : Main.Detections) :
  map_get (Spec.keyOf c) (Main.detectionCache st) = None ->
  Main.useWebWorker st && Main.yoloWorker st = true ->
  Main.detectMedicineWithWorker c = Normal dets ->
  let out := Main.detectMedicine st c in
  Main.result out = Normal dets /\
  Main.attempts out = [Main.WorkerContext] /\
  Main.detectionCache (Main.final out)
  = Main.cacheResults (Spec.keyOf c) dets (Main.detectionCache st) /\
  Main.useWebWorker (Main.final out) = Main.useWebWorker st /\
  Main.yoloWorker (Main.final out) = Main.yoloWorker st /\
  Main.inferenceCount (Main.performanceMetrics (Main.final out))
  = (Main.inferenceCount (Main.performanceMetrics st) + 1)%N /\
  Main.cachedResults (Main.performanceMetrics (Main.final out))
  = Main.cachedResults (Main.performanceMetrics st).
Proof.
  intros Hmiss Hw Hok. unfold Spec.keyOf in *.
  unfold Main.detectMedicine, Main.tryBlock. rewrite Hmiss, Hw, Hok. cbn.
  repeat split.
Qed.

Lemma detect_worker_failed (st : Main.State) (c : Main.Call) (error : string) :
  map_get (Spec.keyOf c) (Main.detectionCache st) = None ->
  Main.useWebWorker st && Main.yoloWorker st = true ->
  Main.detectMedicineWithWorker c = Throw error ->
  let out := Main.detectMedicine st c in
  Main.result out = Main.detectMedicineMainThread c /\
  Main.attempts out = [Main.WorkerContext; Main.CallerContext] /\
  Main.detectionCache (Main.final out) = Main.detectionCache st /\
  Main.useWebWorker (Main.final out) = false /\
  Main.yoloWorker (Main.final out) = Main.yoloWorker st /\
  Main.inferenceCount (Main.performanceMetrics (Main.final out))
  = Main.inferenceCount (Main.performanceMetrics st) /\
  Main.cachedResults (Main.performanceMetrics (Main.final out))
  = Main.cachedResults (Main.performanceMetrics st).
Proof.
  intros Hmiss Hw Hfail. unfold Spec.keyOf in *.
  unfold Main.detectMedicine, Main.tryBlock. rewrite Hmiss, Hw, Hfail. cbn.
  unfold Main.catchBlock. cbn. rewrite Hw. cbn.
  repeat split.
Qed.

Lemma detect_caller (st : Main.State) (c : Main.Call) :
  map_get (Spec.keyOf c) (Main.detectionCache st) = None ->
  Main.useWebWorker st && Main.yoloWorker st = false ->
  let out := Main.detectMedicine st c in
  Main.result out = Main.detectMedicineMainThread c /\
  Main.attempts out = [Main.CallerContext] /\
  Main.useWebWorker (Main.final out) = Main.useWebWorker st /\
  Main.yoloWorker (Main.final out) = Main.yoloWorker st /\
  Main.cachedResults (Main.performanceMetrics (Main.final out))
  = Main.cachedResults (Main.performanceMetrics st) /\
  match Main.detectMedicineMainThread c with
  | Normal dets =>
      Main.detectionCache (Main.final out)
      = Main.cacheResults (Spec.keyOf c) dets (Main.detectionCache st) /\
      Main.inferenceCount (Main.performanceMetrics (Main.final out))
      = (Main.inferenceCount (Main.performanceMetrics st) + 1)%N
  | Throw _ => Main.final out = st
  end.
Proof.
  intros Hmiss Hw. unfold Spec.keyOf in *.
  unfold Main.detectMedicine, Main.tryBlock. rewrite Hmiss, Hw.
  destruct (Main.detectMedicineMainThread c) as [dets|error]; cbn.
  - repeat split.
  - unfold Main.catchBlock. rewrite Hw. cbn. repeat split.
Qed.

(** No event turns [useWebWorker] back on. *)
Lemma step_useWebWorker (st : Main.State) (ev : Main.Event) :
  Main.useWebWorker st = false -> Main.useWebWorker (Main.step st ev) = false.
Proof.
  intros Hoff. destruct ev as [c| |supported constructed|]; cbn.
  - unfold Main.detectMedicine, Main.tryBlock.
    destruct (map_get _ _); [exact Hoff|].
    rewrite Hoff. cbn.
    destruct (Main.detectMedicineMainThread c); cbn; [exact Hoff|].
    unfold Main.catchBlock. rewrite Hoff. exact Hoff.
  - exact Hoff.
  - unfold Main.preloadModel. rewrite Hoff. exact Hoff.
  - reflexivity.
Qed.

Lemma run_useWebWorker (events : list Main.Event) (st : Main.State) :
  Main.useWebWorker st = false -> Main.useWebWorker (Main.run st events) = false.
Proof.
  revert st. induction events as [|ev events IH]; intros st Hoff; [exact Hoff|].
  cbn. apply IH, step_useWebWorker, Hoff.
Qed.

(** A call made with [useWebWorker] off never reaches the worker. *)
Lemma detect_off (st : Main.State) (c : Main.Call) :
  Main.useWebWorker st = false ->
  let out := Main.detectMedicine st c in
  ~ In Main.WorkerContext (Main.attempts out) /\
  (map_get (Spec.keyOf c) (Main.detectionCache st) = None ->
   Main.attempts out = [Main.CallerContext] /\
   Main.result out = Main.detectMedicineMainThread c).
Proof.
  intros Hoff out.
  destruct (map_get (Spec.keyOf c) (Main.detectionCache st)) as [cached|] eqn:Hget.
  - destruct (detect_hit st c cached Hget) as (_ & Ha & _). fold out in Ha.
    rewrite Ha. split; [intros []|discriminate].
  - assert (Hw : Main.useWebWorker st && Main.yoloWorker st = false) by now rewrite Hoff.
    destruct (detect_caller st c Hget Hw) as (Hr & Ha & _). fold out in Hr, Ha.
    rewrite Ha. split; [|auto]. intros [H|[]]. discriminate.
Qed.

(** C3.  When the worker path of a call fails, the same call is handed
    to the caller context and settles with that retry's result, whatever
    the worker's error was; [useWebWorker] is off afterwards and stays
    off through every later event; and no later call is handed to the
    worker: a later call that misses the cache runs in the caller
    context only. *)
Theorem worker_failure_falls_back (st : Main.State) (c : Main.Call) (error : string) :
  map_get (Spec.keyOf c) (Main.detectionCache st) = None ->
  Main.useWebWorker st = true ->
  Main.yoloWorker st = true ->
  Main.detectMedicineWithWorker c = Throw error ->
  let out := Main.detectMedicine st c in
  Main.attempts out = [Main.WorkerContext; Main.CallerContext] /\
  Main.result out = Main.detectMedicineMainThread c /\
  Main.useWebWorker (Main.final out) = false /\
  forall (events : list Main.Event) (later : Main.Call),
    let st' := Main.run (Main.final out) events in
    let out' := Main.detectMedicine st' later in
    Main.useWebWorker st' = false /\
    ~ In Main.WorkerContext (Main.attempts out') /\
    (map_get (Spec.keyOf later) (Main.detectionCache st') = None ->
     Main.attempts out' = [Main.CallerContext] /\
     Main.result out' = Main.detectMedicineMainThread later).
Proof.
  intros Hmiss Hon Hworker Hfail out.
  assert (Hw : Main.useWebWorker st && Main.yoloWorker st = true)
    by now rewrite Hon, Hworker.
  destruct (detect_worker_failed st c error Hmiss Hw Hfail)
    as (Hr & Ha & _ & Hoff & _).
  fold out in Hr, Ha, Hoff.
  repeat split; try assumption.
  - apply run_useWebWorker, Hoff.
  - apply detect_off, run_useWebWorker, Hoff.
  - apply detect_off; [apply run_useWebWorker, Hoff|assumption].
  - apply detect_off; [apply run_useWebWorker, Hoff|assumption].
Qed.

Lemma worker_failure_falls_back_witness :
  Main.attempts (Main.detectMedicine Sample.workerReady Sample.earlyCall)
  = [Main.WorkerContext; Main.CallerContext] /\
  Main.result (Main.detectMedicine Sample.workerReady Sample.earlyCall)
  = Main.detectMedicineMainThread Sample.earlyCall /\
  Main.useWebWorker (Main.final (Main.detectMedicine Sample.workerReady Sample.earlyCall))
  = false.
Proof.
  destruct (worker_failure_falls_back Sample.workerReady Sample.earlyCall
              "Model not loaded" eq_refl eq_refl eq_refl eq_refl)
    as (Ha & Hr & Hoff & _).
  repeat split; assumption.
Defined.

(** C7, the code at the failing input.  The first call on a page whose
    worker has not loaded its model yet: the cache is missed, the worker
    answers with an error, the retry in the caller context succeeds and
    the call resolves with two detections; the [catch] block returns
    them directly, so the cache has no entry for the image and
    [inferenceCount] and [totalInferenceTime] are still [0]. *)
Theorem retry_result_not_recorded :
  let out := Main.detectMedicine Sample.workerReady Sample.earlyCall in
  map_get (Spec.keyOf Sample.earlyCall) (Main.detectionCache Sample.workerReady) = None /\
  Main.attempts out = [Main.WorkerContext; Main.CallerContext] /\
  (exists d1 d2, Main.result out = Normal [Some d1; Some d2]) /\
  map_get (Spec.keyOf Sample.earlyCall) (Main.detectionCache (Main.final out)) = None /\
  Main.inferenceCount (Main.performanceMetrics (Main.final out)) = 0%N /\
  Main.totalInferenceTime (Main.performanceMetrics (Main.final out)) = pzero.
Proof.
  cbv zeta. repeat split; try (vm_compute; reflexivity).
  do 2 eexists. vm_compute. reflexivity.
Qed.

(** X20.  On the other two paths that miss the cache and resolve, the
    result is stored under the image's key and the counters are
    updated. *)
Lemma first_try_result_recorded (st : Main.State) (c : Main.Call) (dets : Main.Detections) :
  map_get (Spec.keyOf c) (Main.detectionCache st) = None ->
  let out := Main.detectMedicine st c in
  Main.result out = Normal dets ->
  Main.attempts out <> [Main.WorkerContext; Main.CallerContext] ->
  map_get (Spec.keyOf c) (Main.detectionCache (Main.final out)) = Some dets /\
  Main.inferenceCount (Main.performanceMetrics (Main.final out))
  = (Main.inferenceCount (Main.performanceMetrics st) + 1)%N.
Proof.
  intros Hmiss out Hres Hatt.
  destruct (Main.useWebWorker st && Main.yoloWorker st) eqn:Hw.
  - destruct (Main.detectMedicineWithWorker c) as [dets'|error] eqn:Hworker.
    + destruct (detect_worker_ok st c dets' Hmiss Hw Hworker)
        as (Hr & _ & Hc & _ & _ & Hn & _).
      fold out in Hr, Hc, Hn. rewrite Hr in Hres. injection Hres as ->.
      rewrite Hc, Hn. split; [apply map_get_set|reflexivity].
    + destruct (detect_worker_failed st c error Hmiss Hw Hworker) as (_ & Ha & _).
      fold out in Ha. contradiction.
  - destruct (detect_caller st c Hmiss Hw) as (Hr & _ & _ & _ & _ & Hc).
    fold out in Hr, Hc. rewrite <- Hr, Hres in Hc. destruct Hc as [Hc Hn].
    rewrite Hc, Hn. split; [apply map_get_set|reflexivity].
Qed.

Lemma first_try_stored (st : Main.State) (c : Main.Call) (dets : Main.Detections) :
  map_get (Spec.keyOf c) (Main.detectionCache st) = None ->
  Main.result (Main.detectMedicine st c) = Normal dets ->
  Main.attempts (Main.detectMedicine st c) <> [Main.WorkerContext; Main.CallerContext] ->
  map_get (Spec.keyOf c) (Main.detectionCache (Main.final (Main.detectMedicine st c)))
  = Some dets /\
  Main.inferenceCount (Main.performanceMetrics (Main.final (Main.detectMedicine st c)))
  = (Main.inferenceCount (Main.performanceMetrics st) + 1)%N.
Proof.
  intros Hmiss Hres Hatt.
  destruct (Main.useWebWorker st && Main.yoloWorker st) eqn:Hw.
  - destruct (Main.detectMedicineWithWorker c) as [dets'|error] eqn:Hworker.
    + destruct (detect_worker_ok st c dets' Hmiss Hw Hworker)
        as (Hr & _ & Hc & _ & _ & Hn & _).
      rewrite Hr in Hres. injection Hres as ->.
      rewrite Hc, Hn. split; [apply map_get_set|reflexivity].
    + destruct (detect_worker_failed st c error Hmiss Hw Hworker) as (_ & Ha & _).
      contradiction.
  - destruct (detect_caller st c Hmiss Hw) as (Hr & _ & _ & _ & _ & Hc).
    rewrite <- Hr, Hres in Hc. destruct Hc as [Hc Hn].
    rewrite Hc, Hn. split; [apply map_get_set|reflexivity].
Qed.

(** Every event keeps the cache and the counters consistent. *)
Lemma step_consistent (st : Main.State) (ev : Main.Event) :
  Spec.consistent st -> Spec.consistent (Main.step st ev).
Proof.
  intros (Hsize & Hnd & Hzero). destruct ev as [c| |supported constructed|];
    cbn [Main.step].
  - destruct (map_get (Spec.keyOf c) (Main.detectionCache st)) as [cached|] eqn:Hget.
    + destruct (detect_hit st c cached Hget) as (_ & _ & Hc & _ & _ & Hn & _).
      unfold Spec.consistent. rewrite Hc, Hn.
      split; [assumption|]. split; [assumption|].
      intros H0. destruct (Hzero H0) as [Hempty _].
      rewrite Hempty in Hget. discriminate.
    + destruct (Main.useWebWorker st && Main.yoloWorker st) eqn:Hw.
      * destruct (Main.detectMedicineWithWorker c) as [dets|error] eqn:Hworker.
        -- destruct (detect_worker_ok st c dets Hget Hw Hworker)
             as (_ & _ & Hc & _ & _ & Hn & _).
           unfold Spec.consistent. rewrite Hc, Hn.
           split; [now apply cacheResults_size|].
           split; [now apply cacheResults_NoDup|]. lia.
        -- destruct (detect_worker_failed st c error Hget Hw Hworker)
             as (_ & _ & Hc & _ & _ & Hn & Hh).
           unfold Spec.consistent. rewrite Hn, Hc, Hh. auto.
      * destruct (detect_caller st c Hget Hw) as (_ & _ & _ & _ & _ & Hc).
        destruct (Main.detectMedicineMainThread c) as [dets|error].
        -- destruct Hc as [Hc Hn]. unfold Spec.consistent. rewrite Hc, Hn.
           split; [now apply cacheResults_size|].
           split; [now apply cacheResults_NoDup|]. lia.
        -- rewrite Hc. split; [assumption|]. split; assumption.
  - split; [cbn; unfold Main.MAX_CACHE_SIZE; lia|].
    split; [constructor|]. cbn. auto.
  - unfold Main.preloadModel.
    destruct (Main.useWebWorker st); [|split; [assumption|split; assumption]].
    destruct (supported && constructed); (split; [assumption|split; assumption]).
  - split; [assumption|split; assumption].
Qed.

Lemma reachable_consistent (st : Main.State) : Spec.Reachable st -> Spec.consistent st.
Proof.
  intros [events ->].
  assert (H : forall st0, Spec.consistent st0 -> Spec.consistent (Main.run st0 events)).
  { induction events as [|ev events IH]; intros st0 H0; [exact H0|].
    cbn. apply IH, step_consistent, H0. }
  apply H. split; [cbn; unfold Main.MAX_CACHE_SIZE; lia|].
  split; [constructor|]. cbn. auto.
Qed.

(** The only writes to the cache: a call leaves it as it was, or stores
    its result under a key the cache did not have; a reset empties it. *)
Lemma detect_cache_write (st : Main.State) (c : Main.Call) :
  let cache' := Main.detectionCache (Main.final (Main.detectMedicine st c)) in
  cache' = Main.detectionCache st \/
  (map_get (Spec.keyOf c) (Main.detectionCache st) = None /\
   exists dets, cache' = Main.cacheResults (Spec.keyOf c) dets (Main.detectionCache st)).
Proof.
  destruct (map_get (Spec.keyOf c) (Main.detectionCache st)) as [cached|] eqn:Hget.
  - left. now destruct (detect_hit st c cached Hget) as (_ & _ & Hc & _).
  - destruct (Main.useWebWorker st && Main.yoloWorker st) eqn:Hw.
    + destruct (Main.detectMedicineWithWorker c) as [dets|error] eqn:Hworker.
      * right. split; [reflexivity|]. exists dets.
        now destruct (detect_worker_ok st c dets Hget Hw Hworker) as (_ & _ & Hc & _).
      * left. now destruct (detect_worker_failed st c error Hget Hw Hworker)
          as (_ & _ & Hc & _).
    + destruct (detect_caller st c Hget Hw) as (_ & _ & _ & _ & _ & Hc).
      destruct (Main.detectMedicineMainThread c) as [dets|error].
      * right. split; [reflexivity|]. exists dets. apply Hc.
      * left. cbv zeta. now rewrite Hc.
Qed.

(** C4.  The cache never holds more than [MAX_CACHE_SIZE = 10] entries
    in any reachable state.  A call served from the cache leaves the
    cache, and with it the order of eviction, as it was.  Results are
    stored by [cacheResults] alone, and when eleven results with
    distinct keys have been stored the first-stored key is absent and
    the other ten are present, in the order they were stored. *)
Theorem cache_capacity_fifo :
  (forall st, Spec.Reachable st ->
              map_size (Main.detectionCache st) <= Main.MAX_CACHE_SIZE) /\
  (forall st c cached,
      map_get (Spec.keyOf c) (Main.detectionCache st) = Some cached ->
      Main.detectionCache (Main.final (Main.detectMedicine st c))
      = Main.detectionCache st) /\
  (forall first rest,
      NoDup (map fst (first :: rest)) -> length rest = 10 ->
      let cache := Spec.stored (first :: rest) in
      cache = rest /\
      map_size cache = 10 /\
      map_has (fst first) cache = false /\
      forall k, In k (map fst rest) -> map_has k cache = true).
Proof.
  split; [|split].
  - intros st Hst. apply (reachable_consistent st Hst).
  - intros st c cached Hget.
    now destruct (detect_hit st c cached Hget) as (_ & _ & Hc & _).
  - intros first rest Hnd Hlen cache.
    assert (Hcache : Spec.stored (first :: rest) = rest).
    { rewrite (stored_last_ten _ Hnd). cbn [length].
      rewrite Hlen. reflexivity. }
    subst cache. rewrite Hcache. repeat split.
    + exact Hlen.
    + cbn in Hnd. inversion Hnd as [|? ? Hout _]; subst.
      destruct (map_has (fst first) rest) eqn:E; [|reflexivity].
      apply map_has_keys in E. contradiction.
    + intros k Hk. now apply map_has_keys.
Qed.

(** The same through [detectMedicine]: after eleven calls on eleven
    different images the key of the first image is gone and the keys of
    the other ten are there, oldest first. *)
Lemma eleven_calls_evict_first :
  map_keys (Main.detectionCache (Main.run Main.initialState Sample.elevenCalls))
  = ["blob:1_640x480"; "blob:2_640x480"; "blob:3_640x480"; "blob:4_640x480";
     "blob:5_640x480"; "blob:6_640x480"; "blob:7_640x480"; "blob:8_640x480";
     "blob:9_640x480"; "blob:10_640x480"]%string /\
  map_has "blob:0_640x480"
          (Main.detectionCache (Main.run Main.initialState Sample.elevenCalls)) = false.
Proof. split; vm_compute; reflexivity. Qed.

Lemma cache_capacity_fifo_witness :
  Spec.stored Sample.elevenEntries = tl Sample.elevenEntries /\
  map_size (Spec.stored Sample.elevenEntries) = 10 /\
  map_has "k0" (Spec.stored Sample.elevenEntries) = false.
Proof.
  destruct cache_capacity_fifo as (_ & _ & Hfifo).
  destruct (Hfifo ("k0"%string, []) (tl Sample.elevenEntries)) as (Hc & Hs & Hf & _).
  - repeat constructor; simpl; intuition discriminate.
  - reflexivity.
  - repeat split; assumption.
Defined.

(* ================================================================== *)
(** * Telemetry *)
(* ================================================================== *)

(** No state of a page has a cache hit on record and no inference: a
    hit needs an entry in the cache, every entry was stored together
    with a counted inference, and a reset clears both. *)
Lemma hits_need_inference (st : Main.State) :
  Spec.Reachable st ->
  Main.inferenceCount (Main.performanceMetrics st) = 0%N ->
  Main.cachedResults (Main.performanceMetrics st) = 0%N.
Proof. intros Hst H0. apply (reachable_consistent st Hst), H0. Qed.

(** C8.  In every state of a page the snapshot reports [cacheHitRate]
    from [cacheHits / (inferenceCount + cacheHits)] whenever that
    denominator is not zero, as the percentage string
    [(quotient * 100).toFixed(1) + '%'], and reports ['0%'] when the
    denominator is zero.  The script guards on [inferenceCount]; this
    is a guard on the denominator, because no state has
    [inferenceCount = 0] and [cacheHits > 0], which is also why the
    last case of the claim never arises.  With 3 inferences and 1
    cache hit the report is ['25.0%'], that is [1/4]. *)
Theorem cacheHitRate_reported (st : Main.State) :
  Spec.Reachable st ->
  let m := Main.performanceMetrics st in
  let rate := Main.cacheHitRate (Main.getPerformanceMetrics st) in
  let denominator := (Main.inferenceCount m + Main.cachedResults m)%N in
  (denominator <> 0%N ->
   rate = Main.percent (of_N (Main.cachedResults m) / of_N denominator * of_Z 100)%js) /\
  (denominator = 0%N -> rate = Some "0%"%string) /\
  (Main.inferenceCount m = 3%N -> Main.cachedResults m = 1%N ->
   rate = Some "25.0%"%string) /\
  ~ (Main.inferenceCount m = 0%N /\ (0 < Main.cachedResults m)%N).
Proof.
  intros Hst m rate denominator.
  pose proof (hits_need_inference st Hst) as Hinv. fold m in Hinv.
  assert (Hrate : rate
                  = if (0 <? Main.inferenceCount m)%N then
                      Main.percent (of_N (Main.cachedResults m) / of_N denominator
                                    * of_Z 100)%js
                    else Some "0%"%string) by reflexivity.
  split; [|split; [|split]].
  - intros Hden. rewrite Hrate.
    destruct (N.ltb_spec 0 (Main.inferenceCount m)) as [Hpos|Hzero]; [reflexivity|].
    exfalso. apply Hden. unfold denominator.
    assert (H0 : Main.inferenceCount m = 0%N) by lia. rewrite (Hinv H0), H0. reflexivity.
  - intros Hden. rewrite Hrate.
    destruct (N.ltb_spec 0 (Main.inferenceCount m)) as [Hpos|Hzero]; [|reflexivity].
    unfold denominator in Hden. lia.
  - intros H3 H1. rewrite Hrate. unfold denominator. rewrite H3, H1.
    vm_compute. reflexivity.
  - intros [H0 Hhits]. rewrite (Hinv H0) in Hhits. lia.
Qed.

Lemma cacheHitRate_reported_witness :
  Spec.Reachable (Main.run Main.initialState Sample.threeThenRepeat) /\
  Main.inferenceCount
    (Main.performanceMetrics (Main.run Main.initialState Sample.threeThenRepeat)) = 3%N /\
  Main.cachedResults
    (Main.performanceMetrics (Main.run Main.initialState Sample.threeThenRepeat)) = 1%N /\
  Main.cacheHitRate
    (Main.getPerformanceMetrics (Main.run Main.initialState Sample.threeThenRepeat))
  = Some "25.0%"%string.
Proof.
  assert (Hst : Spec.Reachable (Main.run Main.initialState Sample.threeThenRepeat))
    by (exists Sample.threeThenRepeat; reflexivity).
  split; [exact Hst|]. split; [vm_compute; reflexivity|]. split; [vm_compute; reflexivity|].
  refine (proj1 (proj2 (proj2
    (cacheHitRate_reported (Main.run Main.initialState Sample.threeThenRepeat) Hst))) _ _);
    vm_compute; reflexivity.
Defined.

(* ================================================================== *)
(** * Further properties of the suppression *)
(* ================================================================== *)

Lemma insert_Permutation (a : ScoredIndex) (sorted : list ScoredIndex) :
  Permutation (Shared.insert a sorted) (a :: sorted).
Proof.
  induction sorted as [|b rest IH]; cbn; [reflexivity|].
  destruct (Shared.comparator a b >? pzero)%js; [|reflexivity].
  rewrite IH. apply perm_swap.
Qed.

Lemma sort_Permutation (items : list ScoredIndex) :
  Permutation (Shared.sort items) items.
Proof.
  induction items as [|a rest IH]; cbn; [reflexivity|].
  rewrite insert_Permutation. now constructor.
Qed.

Lemma map_snd_combine (A B : Type) (l : list A) (l' : list B) :
  length l' <= length l -> map snd (combine l l') = l'.
Proof.
  revert l'. induction l as [|a l IH]; intros [|b l'] H; cbn in *; try reflexivity; try lia.
  f_equal. apply IH. lia.
Qed.

(** The sort at the start of [nonMaxSuppression] loses no index and
    invents none. *)
Lemma sortedIndices_Permutation (scores : list num) :
  Permutation (Shared.sortedIndices scores) (seq 0 (length scores)).
Proof.
  unfold Shared.sortedIndices.
  rewrite (Permutation_map item_idx (sort_Permutation _)).
  rewrite map_map.
  assert (E : forall l : list (num * nat),
             map (fun p => item_idx (mkScored (fst p) (snd p))) l = map snd l)
    by (intros; apply map_ext; reflexivity).
  rewrite E.
  rewrite (map_snd_combine _ _ scores (seq 0 (length scores))); [reflexivity|].
  now rewrite length_seq.
Qed.

Lemma sortedIndices_NoDup (scores : list num) : NoDup (Shared.sortedIndices scores).
Proof.
  eapply Permutation_NoDup; [symmetry; apply sortedIndices_Permutation|apply seq_NoDup].
Qed.

Lemma sortedIndices_length (scores : list num) :
  length (Shared.sortedIndices scores) = length scores.
Proof.
  rewrite (Permutation_length (sortedIndices_Permutation scores)). apply length_seq.
Qed.

Section PruneFacts.

Variable boxes : list Box.
Variable iouThreshold : num.

Lemma splice1_In (A : Type) (i : nat) (l : list A) (a : A) :
  In a (splice1 i l) -> In a l.
Proof.
  unfold splice1. rewrite in_app_iff. intros [H|H].
  - rewrite <- (firstn_skipn i l). apply in_or_app. now left.
  - eapply In_skipn. exact H.
Qed.

Lemma splice1_NoDup (A : Type) (i : nat) (l : list A) : NoDup l -> NoDup (splice1 i l).
Proof.
  intros Hnd. destruct (nth_error l i) as [a|] eqn:Hi.
  - rewrite <- (firstn_skipn_middle _ _ Hi) in Hnd. now apply NoDup_remove_1 in Hnd.
  - apply nth_error_None in Hi. unfold splice1.
    rewrite firstn_all2, skipn_all2, app_nil_r by lia. exact Hnd.
Qed.

Lemma splice1_keeps (A : Type) (i : nat) (l : list A) (a b : A) :
  nth_error l i = Some a -> In b l -> b <> a -> In b (splice1 i l).
Proof.
  intros Hi Hb Hne. rewrite <- (firstn_skipn_middle _ _ Hi) in Hb.
  unfold splice1. rewrite in_app_iff in *. cbn in Hb.
  destruct Hb as [H|[H|H]]; [now left|congruence|now right].
Qed.

Lemma overlaps_of_iou (currentIdx idx : nat) (iou : num) :
  Shared.calculateIoU_at boxes currentIdx idx = Normal iou ->
  Spec.overlaps boxes iouThreshold currentIdx idx = (iou >? iouThreshold)%js.
Proof. intros H. unfold Spec.overlaps. now rewrite H. Qed.

(** One step of either inner loop: the candidate at position [i] goes if
    it overlaps the accepted box. *)
Lemma spliced_pruned (currentIdx i idx : nat) (iou : num) (l r : list nat) :
  nth_error l i = Some idx ->
  Shared.calculateIoU_at boxes currentIdx idx = Normal iou ->
  Spec.pruned boxes iouThreshold currentIdx
              (if (iou >? iouThreshold)%js then splice1 i l else l) r ->
  Spec.pruned boxes iouThreshold currentIdx l r.
Proof.
  intros Hi Hiou (Hin & Hnd & Hlen & Hkeep).
  pose proof (overlaps_of_iou _ _ _ Hiou) as Hov.
  destruct (iou >? iouThreshold)%js.
  - repeat split.
    + intros x Hx. eapply splice1_In. apply Hin, Hx.
    + intros H. apply Hnd. now apply splice1_NoDup.
    + pose proof (splice1_length _ i l). lia.
    + intros x Hx Hfree. apply Hkeep; [|exact Hfree].
      apply (splice1_keeps _ i l idx x Hi Hx). congruence.
  - repeat split; auto.
Qed.

Lemma pruned_refl (currentIdx : nat) (l : list nat) :
  Spec.pruned boxes iouThreshold currentIdx l l.
Proof. repeat split; auto. Qed.

(** main.js: [forEach] may miss candidates that overlap, but it never
    drops one that does not. *)
Lemma forEach_pruned (currentIdx steps : nat) :
  forall i l r,
    Main.forEach boxes iouThreshold currentIdx steps i l = Normal r ->
    Spec.pruned boxes iouThreshold currentIdx l r.
Proof.
  induction steps as [|steps IH]; intros i l r H; cbn in H.
  - injection H as <-. apply pruned_refl.
  - destruct (nth_error l i) as [idx|] eqn:Hi; [|exact (IH _ _ _ H)].
    destruct (Shared.calculateIoU_at boxes currentIdx idx) as [iou|] eqn:Hiou;
      [|discriminate].
    cbn in H. apply IH in H. exact (spliced_pruned _ _ _ _ _ _ Hi Hiou H).
Qed.

Lemma removeOverlapping_pruned (currentIdx upto : nat) :
  forall l r,
    Worker.removeOverlapping boxes iouThreshold currentIdx upto l = Normal r ->
    Spec.pruned boxes iouThreshold currentIdx l r.
Proof.
  induction upto as [|i IH]; intros l r H; cbn in H.
  - injection H as <-. apply pruned_refl.
  - destruct (nth_error l i) as [idx|] eqn:Hi; [|discriminate].
    destruct (Shared.calculateIoU_at boxes currentIdx idx) as [iou|] eqn:Hiou;
      [|discriminate].
    cbn in H. apply IH in H. exact (spliced_pruned _ _ _ _ _ _ Hi Hiou H).
Qed.

(** With a box for every candidate, [forEach] does not throw and leaves
    candidates that have a box. *)
Lemma forEach_returns (currentIdx steps : nat) :
  currentIdx < length boxes ->
  forall i l,
    Forall (fun idx => idx < length boxes) l ->
    exists r, Main.forEach boxes iouThreshold currentIdx steps i l = Normal r /\
              Forall (fun idx => idx < length boxes) r.
Proof.
  intros Hcur. induction steps as [|steps IH]; intros i l Hall; cbn.
  - eauto.
  - destruct (nth_error l i) as [idx|] eqn:Hi; [|now apply IH].
    assert (Hidx : idx < length boxes).
    { rewrite Forall_forall in Hall. apply Hall. eapply nth_error_In; eauto. }
    unfold Shared.calculateIoU_at.
    destruct (nth_error boxes currentIdx) as [box1|] eqn:Hb1.
    2:{ apply nth_error_None in Hb1. lia. }
    destruct (nth_error boxes idx) as [box2|] eqn:Hb2.
    2:{ apply nth_error_None in Hb2. lia. }
    cbn [bind]. apply IH.
    destruct (Shared.calculateIoU box1 box2 >? iouThreshold)%js; [|exact Hall].
    now apply (splice1_Forall _ _ i l idx).
Qed.

Lemma main_rounds_roundsWith (maxDetections fuel : nat) :
  forall indices selected,
    Main.rounds boxes iouThreshold maxDetections fuel indices selected
    = Spec.roundsWith
        (fun currentIdx rest =>
           Main.forEach boxes iouThreshold currentIdx (length rest) 0 rest)
        maxDetections fuel indices selected.
Proof.
  induction fuel as [|fuel IH]; intros indices selected; [reflexivity|].
  cbn [Main.rounds Spec.roundsWith]. destruct indices as [|currentIdx rest]; [reflexivity|].
  destruct (length selected <? maxDetections); [|reflexivity].
  destruct (Main.forEach _ _ _ _ _ _); cbn [bind]; [apply IH|reflexivity].
Qed.

Lemma worker_rounds_roundsWith (maxDetections fuel : nat) :
  forall indices selected,
    Worker.rounds boxes iouThreshold maxDetections fuel indices selected
    = Spec.roundsWith
        (fun currentIdx rest =>
           Worker.removeOverlapping boxes iouThreshold currentIdx (length rest) rest)
        maxDetections fuel indices selected.
Proof.
  induction fuel as [|fuel IH]; intros indices selected; [reflexivity|].
  cbn [Worker.rounds Spec.roundsWith]. destruct indices as [|currentIdx rest]; [reflexivity|].
  destruct (length selected <? maxDetections); [|reflexivity].
  destruct (Worker.removeOverlapping _ _ _ _ _); cbn [bind]; [apply IH|reflexivity].
Qed.

Variable prune : nat -> list nat -> completion (list nat).
Hypothesis prune_pruned :
  forall currentIdx l r,
    prune currentIdx l = Normal r -> Spec.pruned boxes iouThreshold currentIdx l r.

Lemma stopped_shape (maxDetections : nat) (indices selected : list nat) :
  (length selected <= maxDetections -> length selected <= maxDetections) /\
  (NoDup (selected ++ indices) -> NoDup selected) /\
  (forall idx, In idx selected -> In idx (selected ++ indices)) /\
  (forall idx, In idx selected -> In idx selected) /\
  (exists later, selected = selected ++ later).
Proof.
  split; [auto|]. split; [apply NoDup_app_remove_r|].
  split; [intros idx Hi; apply in_or_app; now left|]. split; [auto|].
  exists []. now rewrite app_nil_r.
Qed.

(** The shape of what the rounds select. *)
Lemma roundsWith_shape (maxDetections fuel : nat) :
  forall indices selected result,
    Spec.roundsWith prune maxDetections fuel indices selected = Normal result ->
    (length selected <= maxDetections -> length result <= maxDetections) /\
    (NoDup (selected ++ indices) -> NoDup result) /\
    (forall idx, In idx result -> In idx (selected ++ indices)) /\
    (forall idx, In idx selected -> In idx result) /\
    (exists later, result = selected ++ later).
Proof.
  induction fuel as [|fuel IH]; intros indices selected result H;
    cbn [Spec.roundsWith] in H.
  - injection H as <-. apply stopped_shape.
  - destruct indices as [|currentIdx rest].
    { injection H as <-. apply stopped_shape. }
    destruct (length selected <? maxDetections) eqn:Hroom.
    2:{ injection H as <-. apply stopped_shape. }
    apply Nat.ltb_lt in Hroom.
    destruct (prune currentIdx rest) as [rest'|] eqn:Hp; [|discriminate].
    cbn [bind] in H. apply IH in H.
    destruct (prune_pruned _ _ _ Hp) as (Hin & Hnd & _ & _).
    destruct H as (Hlen & Hnd' & Hsub & Hsel & (later & ->)).
    split; [|split; [|split; [|split]]].
    + intros _. apply Hlen. rewrite length_app. cbn. lia.
    + intros Hall. apply Hnd'. rewrite <- app_assoc. cbn [app].
      apply NoDup_remove in Hall as [Hall Hout].
      pose proof (NoDup_app_remove_l _ _ Hall) as Hrest.
      pose proof (NoDup_app_remove_r _ _ Hall) as Hsel'.
      apply NoDup_app; [exact Hsel'| |].
      * constructor; [|now apply Hnd].
        intros Hc. apply Hout, in_or_app. right. now apply Hin.
      * intros a Ha [<-|Hr].
        -- apply Hout, in_or_app. now left.
        -- apply Hin in Hr. clear - Hall Ha Hr.
           induction selected as [|s sel IHs]; [destruct Ha|].
           cbn in Hall. inversion Hall as [|? ? Hs Hall']; subst.
           destruct Ha as [<-|Ha].
           ++ apply Hs, in_or_app. now right.
           ++ now apply IHs.
    + intros idx Hi. apply Hsub in Hi. rewrite <- app_assoc in Hi. cbn [app] in Hi.
      rewrite !in_app_iff in *. cbn in *. specialize (Hin idx). tauto.
    + intros idx Hi. apply Hsel, in_or_app. now left.
    + exists (currentIdx :: later). now rewrite <- app_assoc.
Qed.

(** When the rounds stop short of [maxDetections], every candidate they
    were given is selected or overlaps a selected box. *)
Lemma roundsWith_cover (maxDetections fuel : nat) :
  forall indices selected result,
    length indices <= fuel ->
    Spec.roundsWith prune maxDetections fuel indices selected = Normal result ->
    length result < maxDetections ->
    forall idx,
      (In idx selected \/ In idx indices \/
       exists s, In s selected /\ Spec.overlaps boxes iouThreshold s idx = true) ->
      In idx result \/
      exists s, In s result /\ Spec.overlaps boxes iouThreshold s idx = true.
Proof.
  induction fuel as [|fuel IH]; intros indices selected result Hfuel H Hshort idx Hidx;
    cbn [Spec.roundsWith] in H.
  - injection H as <-. destruct indices; [|cbn in Hfuel; lia].
    destruct Hidx as [Hs|[[]|Hc]]; auto.
  - destruct indices as [|currentIdx rest].
    { injection H as <-. destruct Hidx as [Hs|[[]|Hc]]; auto. }
    destruct (length selected <? maxDetections) eqn:Hroom.
    2:{ injection H as <-. apply Nat.ltb_ge in Hroom. lia. }
    destruct (prune currentIdx rest) as [rest'|] eqn:Hp; [|discriminate].
    cbn [bind] in H.
    destruct (prune_pruned _ _ _ Hp) as (_ & _ & Hlen & Hkeep).
    cbn in Hfuel.
    apply (IH rest' (selected ++ [currentIdx]) result ltac:(lia) H Hshort).
    destruct Hidx as [Hs|[[<-|Hr]|(s & Hs & Hov)]].
    + left. apply in_or_app. now left.
    + left. apply in_or_app. right. now left.
    + destruct (Spec.overlaps boxes iouThreshold currentIdx idx) eqn:Hov.
      * right. right. exists currentIdx. split; [|exact Hov].
        apply in_or_app. right. now left.
      * right. left. now apply Hkeep.
    + right. right. exists s. split; [|exact Hov]. apply in_or_app. now left.
Qed.

(** If the inner loop returns on candidates that have a box, so do the
    rounds. *)
Lemma roundsWith_returns (maxDetections fuel : nat) :
  (forall currentIdx l,
      currentIdx < length boxes -> Forall (fun idx => idx < length boxes) l ->
      exists r, prune currentIdx l = Normal r /\
                Forall (fun idx => idx < length boxes) r) ->
  forall indices selected,
    Forall (fun idx => idx < length boxes) indices ->
    exists result, Spec.roundsWith prune maxDetections fuel indices selected = Normal result.
Proof.
  intros Hret. induction fuel as [|fuel IH]; intros indices selected Hall;
    cbn [Spec.roundsWith].
  - eauto.
  - destruct indices as [|currentIdx rest]; [eauto|].
    destruct (length selected <? maxDetections); [|eauto].
    inversion Hall as [|? ? Hcur Hrest]; subst.
    destruct (Hret currentIdx rest Hcur Hrest) as (rest' & -> & Hall').
    cbn [bind]. now apply IH.
Qed.

End PruneFacts.

Lemma main_nms_roundsWith (boxes : list Box) (scores : list num)
      (iouThreshold : num) (maxDetections : nat) :
  Main.nonMaxSuppression boxes scores iouThreshold maxDetections
  = Spec.roundsWith
      (fun currentIdx rest =>
         Main.forEach boxes iouThreshold currentIdx (length rest) 0 rest)
      maxDetections (length (Shared.sortedIndices scores))
      (Shared.sortedIndices scores) [].
Proof. apply main_rounds_roundsWith. Qed.

Lemma worker_nms_roundsWith (boxes : list Box) (scores : list num)
      (iouThreshold : num) (maxDetections : nat) :
  Worker.nonMaxSuppression boxes scores iouThreshold maxDetections
  = Spec.roundsWith
      (fun currentIdx rest =>
         Worker.removeOverlapping boxes iouThreshold currentIdx (length rest) rest)
      maxDetections (length (Shared.sortedIndices scores))
      (Shared.sortedIndices scores) [].
Proof. apply worker_rounds_roundsWith. Qed.

Lemma main_prune_pruned (boxes : list Box) (iouThreshold : num) :
  forall currentIdx l r,
    Main.forEach boxes iouThreshold currentIdx (length l) 0 l = Normal r ->
    Spec.pruned boxes iouThreshold currentIdx l r.
Proof. intros currentIdx l r. apply forEach_pruned. Qed.

Lemma worker_prune_pruned (boxes : list Box) (iouThreshold : num) :
  forall currentIdx l r,
    Worker.removeOverlapping boxes iouThreshold currentIdx (length l) l = Normal r ->
    Spec.pruned boxes iouThreshold currentIdx l r.
Proof. intros currentIdx l r. apply removeOverlapping_pruned. Qed.

Lemma main_nms_returns (boxes : list Box) (scores : list num)
      (iouThreshold : num) (maxDetections : nat) :
  length scores <= length boxes ->
  exists selected,
    Main.nonMaxSuppression boxes scores iouThreshold maxDetections = Normal selected.
Proof.
  intros Hlen. rewrite main_nms_roundsWith. apply (roundsWith_returns boxes).
  - intros currentIdx l Hcur Hall. now apply forEach_returns.
  - eapply Forall_impl; [|apply sortedIndices_bound]. cbn. intros idx H. lia.
Qed.

Lemma worker_nms_returns (boxes : list Box) (scores : list num)
      (iouThreshold : num) (maxDetections : nat) :
  length scores <= length boxes ->
  exists selected,
    Worker.nonMaxSuppression boxes scores iouThreshold maxDetections = Normal selected.
Proof.
  intros Hlen. unfold Worker.nonMaxSuppression.
  destruct (worker_rounds_no_overlap boxes iouThreshold maxDetections
              (length (Shared.sortedIndices scores)) (Shared.sortedIndices scores) [])
    as (selected & Hrun & _).
  - eapply Forall_impl; [|apply sortedIndices_bound]. cbn. intros idx H. lia.
  - constructor.
  - constructor.
  - eauto.
Qed.

(** What either script's result looks like, given that it returned. *)
Lemma selection_shape (boxes : list Box) (scores : list num) (iouThreshold : num)
      (maxDetections : nat) (prune : nat -> list nat -> completion (list nat))
      (selected : list nat) :
  (forall currentIdx l r,
      prune currentIdx l = Normal r -> Spec.pruned boxes iouThreshold currentIdx l r) ->
  Spec.roundsWith prune maxDetections (length (Shared.sortedIndices scores))
                  (Shared.sortedIndices scores) [] = Normal selected ->
  length selected <= maxDetections /\
  NoDup selected /\
  Forall (fun idx => idx < length scores) selected.
Proof.
  intros Hprune Hrun.
  destruct (roundsWith_shape boxes iouThreshold prune Hprune _ _ _ _ _ Hrun)
    as (Hlen & Hnd & Hsub & _).
  split; [apply Hlen; cbn; lia|]. split; [apply Hnd, sortedIndices_NoDup|].
  apply Forall_forall. intros idx Hin. apply Hsub in Hin. cbn in Hin.
  pose proof (sortedIndices_bound scores) as Hb. rewrite Forall_forall in Hb. auto.
Qed.

(** X1.  Either script's [nonMaxSuppression], given a box for every
    score, returns a list of at most [maxDetections] indices, all
    different, each the index of one of the scores. *)
Theorem nms_selection_shape (boxes : list Box) (scores : list num)
        (iouThreshold : num) (maxDetections : nat) :
  length scores <= length boxes ->
  (exists selected,
      Main.nonMaxSuppression boxes scores iouThreshold maxDetections = Normal selected /\
      length selected <= maxDetections /\
      NoDup selected /\
      Forall (fun idx => idx < length scores) selected) /\
  (exists selected,
      Worker.nonMaxSuppression boxes scores iouThreshold maxDetections = Normal selected /\
      length selected <= maxDetections /\
      NoDup selected /\
      Forall (fun idx => idx < length scores) selected).
Proof.
  intros Hlen. split.
  - destruct (main_nms_returns boxes scores iouThreshold maxDetections Hlen)
      as [selected Hrun].
    exists selected. split; [exact Hrun|]. rewrite main_nms_roundsWith in Hrun.
    exact (selection_shape boxes scores iouThreshold maxDetections _ selected
             (main_prune_pruned boxes iouThreshold) Hrun).
  - destruct (worker_nms_returns boxes scores iouThreshold maxDetections Hlen)
      as [selected Hrun].
    exists selected. split; [exact Hrun|]. rewrite worker_nms_roundsWith in Hrun.
    exact (selection_shape boxes scores iouThreshold maxDetections _ selected
             (worker_prune_pruned boxes iouThreshold) Hrun).
Qed.

Lemma nms_selection_shape_witness :
  exists selected,
    Main.nonMaxSuppression Sample.threeBoxes Sample.threeScores (dec 45 2) 100
    = Normal selected /\
    length selected <= 100 /\ NoDup selected /\
    Forall (fun idx => idx < 3) selected.
Proof.
  refine (proj1 (nms_selection_shape Sample.threeBoxes Sample.threeScores
                   (dec 45 2) 100 _)).
  simpl. lia.
Defined.

(** X2.  Neither script suppresses a box that overlaps no selected box:
    when [nonMaxSuppression] returns fewer than [maxDetections] indices,
    every score index is selected or has an IoU above the threshold
    with a selected box. *)
Theorem nms_suppressed_overlap_selected (boxes : list Box) (scores : list num)
        (iouThreshold : num) (maxDetections : nat) (selected : list nat) :
  Main.nonMaxSuppression boxes scores iouThreshold maxDetections = Normal selected \/
  Worker.nonMaxSuppression boxes scores iouThreshold maxDetections = Normal selected ->
  length selected < maxDetections ->
  forall idx,
    idx < length scores ->
    In idx selected \/
    exists s, In s selected /\ Spec.overlaps boxes iouThreshold s idx = true.
Proof.
  intros Hrun Hshort idx Hidx.
  assert (Hcand : In idx (Shared.sortedIndices scores)).
  { apply (Permutation_in idx (Permutation_sym (sortedIndices_Permutation scores))).
    apply in_seq. lia. }
  destruct Hrun as [Hrun|Hrun].
  - rewrite main_nms_roundsWith in Hrun.
    apply (roundsWith_cover boxes iouThreshold _ (main_prune_pruned boxes iouThreshold)
             maxDetections _ _ [] selected (le_n _) Hrun Hshort). auto.
  - rewrite worker_nms_roundsWith in Hrun.
    apply (roundsWith_cover boxes iouThreshold _ (worker_prune_pruned boxes iouThreshold)
             maxDetections _ _ [] selected (le_n _) Hrun Hshort). auto.
Qed.

Lemma nms_suppressed_overlap_selected_witness :
  In 1 [0; 2] \/
  exists s, In s [0; 2] /\ Spec.overlaps Sample.threeBoxes (dec 45 2) s 1 = true.
Proof.
  refine (nms_suppressed_overlap_selected Sample.threeBoxes Sample.threeScores
            (dec 45 2) 100 [0; 2] _ _ 1 _).
  - left. vm_compute. reflexivity.
  - simpl. lia.
  - simpl. lia.
Defined.

Lemma worker_nms_no_overlap_witness :
  exists selected,
    Worker.nonMaxSuppression Sample.threeBoxes Sample.threeScores (dec 45 2) 100
    = Normal selected /\
    ForallOrdPairs
      (fun a b => Spec.overlaps Sample.threeBoxes (dec 45 2) a b = false) selected.
Proof.
  refine (worker_nms_no_overlap Sample.threeBoxes Sample.threeScores (dec 45 2) 100 _).
  simpl. lia.
Defined.

(* ================================================================== *)
(** * Further properties of [processYOLOOutput] *)
(* ================================================================== *)

Lemma decodeFrom_length (cfg : Config) (features : list (list num))
      (imgWidth imgHeight : num) (n : nat) (anchors : list nat) :
  forall acc dets,
    Shared.decodeFrom cfg features imgWidth imgHeight n anchors acc = Normal dets ->
    length dets <= length acc + length anchors.
Proof.
  induction anchors as [|a later IH]; intros acc dets H; cbn in H.
  - injection H as <-. lia.
  - destruct (Shared.decodeAnchor cfg features imgWidth imgHeight n a)
      as [[pushed|]|msg]; cbn in H; try discriminate; apply IH in H;
      rewrite ?length_app in H; cbn in *; lia.
Qed.

Lemma decode_length (cfg : Config) (features : list (list num))
      (imgWidth imgHeight : num) (dets : list Detection) :
  Shared.decode cfg features imgWidth imgHeight = Normal dets ->
  length dets <= length (nth 0 features []).
Proof.
  unfold Shared.decode. destruct (nth_error features 0) as [row0|] eqn:E; [|discriminate].
  intros H. apply decodeFrom_length in H. rewrite length_seq in H.
  rewrite (nth_error_nth _ _ _ E). cbn in H. lia.
Qed.

(** With a suppression that returns distinct indices of its scores, at
    most [maxDetections] of them, [processYOLOOutput] returns that many
    decoded detections and no [undefined]. *)
Lemma processWith_returns
      (nonMaxSuppression : list Box -> list num -> num -> nat -> completion (list nat))
      (cfg : Config) (features : list (list num)) (imgWidth imgHeight : num)
      (dets : list Detection) :
  (forall boxes scores,
      length scores <= length boxes ->
      exists selected,
        nonMaxSuppression boxes scores (iouThreshold cfg) (maxDetections cfg)
        = Normal selected /\
        length selected <= maxDetections cfg /\
        NoDup selected /\
        Forall (fun idx => idx < length scores) selected) ->
  Shared.decode cfg features imgWidth imgHeight = Normal dets ->
  exists finals,
    Shared.processWith nonMaxSuppression cfg [features] imgWidth imgHeight
    = Normal finals /\
    length finals <= maxDetections cfg /\
    length finals <= length dets /\
    forall entry, In entry finals -> exists d, entry = Some d /\ In d dets.
Proof.
  intros Hnms Hdec. unfold Shared.processWith. cbn [nth_error]. rewrite Hdec. cbn [bind].
  destruct (Hnms (map Shared.boxOf dets) (map score dets)) as (selected & -> & Hmax & Hnd & Hall).
  { now rewrite !length_map. }
  cbn [bind]. eexists. split; [reflexivity|]. rewrite length_map in *.
  split; [exact Hmax|]. split.
  - assert (Hincl : incl selected (seq 0 (length dets))).
    { intros idx Hin. apply in_seq. rewrite Forall_forall in Hall.
      specialize (Hall idx Hin). lia. }
    pose proof (NoDup_incl_length Hnd Hincl) as Hle.
    now rewrite length_seq in Hle.
  - intros entry Hin. apply in_map_iff in Hin. destruct Hin as (idx & <- & Hin).
    rewrite Forall_forall in Hall. specialize (Hall idx Hin).
    destruct (nth_error dets idx) as [d|] eqn:E.
    + exists d. split; [reflexivity|]. eapply nth_error_In; eauto.
    + apply nth_error_None in E. lia.
Qed.

(** X3.  For a raw output with its four box rows, [processYOLOOutput]
    does not throw in either script: decoding gives at most one
    detection per anchor, and the function returns at most
    [maxDetections = 100] entries, never more than were decoded, each of
    them one of the decoded detections and none [undefined]. *)
Theorem processYOLOOutput_returns (features : list (list num)) (imgWidth imgHeight : num) :
  4 <= length features ->
  exists dets,
    Shared.decode MODEL_CONFIG features imgWidth imgHeight = Normal dets /\
    length dets <= length (nth 0 features []) /\
    (exists finals,
        Main.processYOLOOutput [features] imgWidth imgHeight = Normal finals /\
        length finals <= 100 /\
        length finals <= length dets /\
        forall entry, In entry finals -> exists d, entry = Some d /\ In d dets) /\
    (exists finals,
        Worker.processYOLOOutput [features] imgWidth imgHeight = Normal finals /\
        length finals <= 100 /\
        length finals <= length dets /\
        forall entry, In entry finals -> exists d, entry = Some d /\ In d dets).
Proof.
  intros Hrows.
  destruct (decode_total MODEL_CONFIG features imgWidth imgHeight Hrows) as [dets Hdec].
  exists dets. split; [exact Hdec|]. split; [exact (decode_length _ _ _ _ _ Hdec)|].
  split.
  - apply (processWith_returns Main.nonMaxSuppression MODEL_CONFIG features
             imgWidth imgHeight dets); [|exact Hdec].
    intros boxes scores Hlen.
    destruct (main_nms_returns boxes scores (iouThreshold MODEL_CONFIG)
                (maxDetections MODEL_CONFIG) Hlen) as [selected Hrun].
    exists selected. split; [exact Hrun|]. rewrite main_nms_roundsWith in Hrun.
    exact (selection_shape boxes scores _ _ _ selected
             (main_prune_pruned boxes _) Hrun).
  - apply (processWith_returns Worker.nonMaxSuppression MODEL_CONFIG features
             imgWidth imgHeight dets); [|exact Hdec].
    intros boxes scores Hlen.
    destruct (worker_nms_returns boxes scores (iouThreshold MODEL_CONFIG)
                (maxDetections MODEL_CONFIG) Hlen) as [selected Hrun].
    exists selected. split; [exact Hrun|]. rewrite worker_nms_roundsWith in Hrun.
    exact (selection_shape boxes scores _ _ _ selected
             (worker_prune_pruned boxes _) Hrun).
Qed.

Lemma processYOLOOutput_returns_witness :
  exists dets,
    Shared.decode MODEL_CONFIG (nth 0 Sample.threeAnchors []) (of_Z 640) (of_Z 480)
    = Normal dets /\
    length dets <= 3.
Proof.
  destruct (processYOLOOutput_returns (nth 0 Sample.threeAnchors [])
              (of_Z 640) (of_Z 480)) as (dets & Hdec & Hlen & _).
  - simpl. lia.
  - exists dets. split; [exact Hdec|exact Hlen].
Defined.

(** X4.  With fewer than four feature rows the scripts read a row that
    is [undefined]: [processYOLOOutput] throws a TypeError as soon as
    there is one anchor, in either script; with no anchor at all it
    returns the empty list, and with an empty [output] it throws. *)
Theorem processYOLOOutput_missing_rows (features : list (list num))
        (imgWidth imgHeight : num) :
  length features < 4 ->
  let expected :=
    match features with
    | [] => Throw TypeError
    | [] :: _ => Normal []
    | (_ :: _) :: _ => Throw TypeError
    end in
  Main.processYOLOOutput [features] imgWidth imgHeight = expected /\
  Worker.processYOLOOutput [features] imgWidth imgHeight = expected /\
  Main.processYOLOOutput [] imgWidth imgHeight = Throw TypeError /\
  Worker.processYOLOOutput [] imgWidth imgHeight = Throw TypeError.
Proof.
  intros Hrows.
  destruct features as [|row0 [|row1 [|row2 [|row3 rest]]]]; cbn in Hrows; try lia;
    try destruct row0 as [|cell row0]; repeat split; reflexivity.
Qed.

Lemma processYOLOOutput_missing_rows_witness :
  Main.processYOLOOutput [[[dec 5 1]; [dec 5 1]; [dec 2 1]]] (of_Z 640) (of_Z 480)
  = Throw TypeError.
Proof.
  refine (proj1 (processYOLOOutput_missing_rows [[dec 5 1]; [dec 5 1]; [dec 2 1]]
                   (of_Z 640) (of_Z 480) _)).
  simpl. lia.
Defined.

(* ================================================================== *)
(** * Further properties of [detectMedicine] *)
(* ================================================================== *)

Lemma first_try_result_recorded_witness :
  exists dets,
    map_get (Spec.keyOf (Sample.call "blob:a" true))
            (Main.detectionCache
               (Main.final (Main.detectMedicine Sample.workerReady
                                                (Sample.call "blob:a" true))))
    = Some dets /\
    Main.inferenceCount
      (Main.performanceMetrics
         (Main.final (Main.detectMedicine Sample.workerReady (Sample.call "blob:a" true))))
    = (Main.inferenceCount (Main.performanceMetrics Sample.workerReady) + 1)%N.
Proof.
  eexists.
  apply (first_try_result_recorded Sample.workerReady (Sample.call "blob:a" true)).
  - reflexivity.
  - vm_compute. reflexivity.
  - vm_compute. discriminate.
Defined.

(** X6.  Once a call has stored its result, the next call whose image
    has the same key (the same image, or any other with the same first
    50 characters of [src] and the same dimensions) resolves with that
    very list without handing the image to any context: it counts one
    cache hit and leaves the cache and [inferenceCount] as they are. *)
Theorem same_key_served_from_cache (st : Main.State) (first again : Main.Call)
        (dets : Main.Detections) :
  map_get (Spec.keyOf first) (Main.detectionCache st) = None ->
  Main.result (Main.detectMedicine st first) = Normal dets ->
  Main.attempts (Main.detectMedicine st first)
  <> [Main.WorkerContext; Main.CallerContext] ->
  Spec.keyOf again = Spec.keyOf first ->
  let st1 := Main.final (Main.detectMedicine st first) in
  let out := Main.detectMedicine st1 again in
  Main.result out = Normal dets /\
  Main.attempts out = [] /\
  Main.detectionCache (Main.final out) = Main.detectionCache st1 /\
  Main.inferenceCount (Main.performanceMetrics (Main.final out))
  = Main.inferenceCount (Main.performanceMetrics st1) /\
  Main.cachedResults (Main.performanceMetrics (Main.final out))
  = (Main.cachedResults (Main.performanceMetrics st1) + 1)%N.
Proof.
  intros Hmiss Hres Hatt Hkey st1 out.
  destruct (first_try_stored st first dets Hmiss Hres Hatt) as [Hstored _].
  fold st1 in Hstored. rewrite <- Hkey in Hstored.
  destruct (detect_hit st1 again dets Hstored) as (Hr & Ha & Hc & _ & _ & Hn & Hh).
  fold out in Hr, Ha, Hc, Hn, Hh. auto.
Qed.

Lemma same_key_served_from_cache_witness :
  Main.attempts
    (Main.detectMedicine
       (Main.final (Main.detectMedicine Main.initialState (Sample.call "blob:a" true)))
       (Sample.call "blob:a" false)) = [].
Proof.
  refine (proj1 (proj2 (same_key_served_from_cache Main.initialState
                          (Sample.call "blob:a" true) (Sample.call "blob:a" false)
                          _ _ _ _ _))).
  - reflexivity.
  - vm_compute. reflexivity.
  - vm_compute. discriminate.
  - reflexivity.
Defined.

(** X7.  A call that rejects leaves no trace in the cache or in the
    inference and cache-hit counters, and the error it rejects with is
    the one the main thread raised: a worker error alone never reaches
    the caller. *)
Theorem rejected_call_leaves_cache (st : Main.State) (c : Main.Call) (error : string) :
  Main.result (Main.detectMedicine st c) = Throw error ->
  let st' := Main.final (Main.detectMedicine st c) in
  Main.detectMedicineMainThread c = Throw error /\
  Main.detectionCache st' = Main.detectionCache st /\
  Main.inferenceCount (Main.performanceMetrics st')
  = Main.inferenceCount (Main.performanceMetrics st) /\
  Main.cachedResults (Main.performanceMetrics st')
  = Main.cachedResults (Main.performanceMetrics st).
Proof.
  intros Hres st'. subst st'.
  destruct (map_get (Spec.keyOf c) (Main.detectionCache st)) as [cached|] eqn:Hget.
  - destruct (detect_hit st c cached Hget) as (Hr & _). congruence.
  - destruct (Main.useWebWorker st && Main.yoloWorker st) eqn:Hw.
    + destruct (Main.detectMedicineWithWorker c) as [dets|werror] eqn:Hworker.
      * destruct (detect_worker_ok st c dets Hget Hw Hworker) as (Hr & _). congruence.
      * destruct (detect_worker_failed st c werror Hget Hw Hworker)
          as (Hr & _ & Hc & _ & _ & Hn & Hh).
        rewrite <- Hr. auto.
    + destruct (detect_caller st c Hget Hw) as (Hr & _ & _ & _ & Hh & Hc).
      rewrite Hr in Hres. rewrite Hres in Hc. rewrite Hc. auto.
Qed.

Lemma rejected_call_leaves_cache_witness :
  Main.detectionCache
    (Main.final
       (Main.detectMedicine Sample.workerReady
          {| Main.imageElement := Sample.photo "blob:a";
             Main.startTime := of_Z 1000; Main.endTime := of_Z 1250;
             Main.dispatch := Throw "DataCloneError";
             Main.workerModelLoaded := true;
             Main.workerPredict := Normal Sample.threeAnchors;
             Main.modelLoads := false;
             Main.mainPredict := Normal Sample.threeAnchors |}))
  = Main.detectionCache Sample.workerReady.
Proof.
  refine (proj1 (proj2 (rejected_call_leaves_cache Sample.workerReady _
                          "Failed to load YOLO model. Please check the model path." _))).
  vm_compute. reflexivity.
Defined.

(** X8.  [resetPerformanceMetrics] zeroes every counter and empties the
    cache, and touches nothing else: the worker stays as enabled or
    disabled as it was.  After it the snapshot reports ['0%'] twice and
    [cacheSize = 0], and the next call, whatever its image, is handed to
    a context again instead of being served from the cache. *)
Theorem reset_clears (st : Main.State) :
  let st' := Main.resetPerformanceMetrics st in
  Main.performanceMetrics st' = Main.performanceMetrics Main.initialState /\
  Main.detectionCache st' = [] /\
  Main.useWebWorker st' = Main.useWebWorker st /\
  Main.yoloWorker st' = Main.yoloWorker st /\
  Main.cacheSize (Main.getPerformanceMetrics st') = 0 /\
  Main.cacheHitRate (Main.getPerformanceMetrics st') = Some "0%"%string /\
  Main.workerUsagePercent (Main.getPerformanceMetrics st') = Some "0%"%string /\
  forall c, Main.attempts (Main.detectMedicine st' c) <> [].
Proof.
  cbv zeta. repeat (split; [reflexivity|]).
  intros c.
  assert (Hmiss : map_get (Spec.keyOf c)
                          (Main.detectionCache (Main.resetPerformanceMetrics st)) = None)
    by reflexivity.
  destruct (Main.useWebWorker (Main.resetPerformanceMetrics st)
            && Main.yoloWorker (Main.resetPerformanceMetrics st)) eqn:Hw.
  - destruct (Main.detectMedicineWithWorker c) as [dets|error] eqn:Hworker.
    + destruct (detect_worker_ok _ c dets Hmiss Hw Hworker) as (_ & -> & _). discriminate.
    + destruct (detect_worker_failed _ c error Hmiss Hw Hworker) as (_ & -> & _).
      discriminate.
  - destruct (detect_caller _ c Hmiss Hw) as (_ & -> & _). discriminate.
Qed.

Lemma cacheResults_grows (k : string) (v : Main.Detections) (cache : Map Main.Detections) :
  map_size (Main.cacheResults k v cache) <= S (map_size cache).
Proof.
  unfold Main.cacheResults, map_size.
  destruct (Main.MAX_CACHE_SIZE <=? length cache).
  - destruct cache as [|[k0 v0] rest]; cbn [map_firstKey].
    + apply map_set_length.
    + pose proof (map_set_length _ k v (map_delete k0 ((k0, v0) :: rest))).
      pose proof (map_delete_first_length _ k0 v0 rest). cbn [length]. lia.
  - apply map_set_length.
Qed.

Lemma step_counted (st : Main.State) (ev : Main.Event) :
  (N.of_nat (map_size (Main.detectionCache st))
   <= Main.inferenceCount (Main.performanceMetrics st))%N ->
  (N.of_nat (map_size (Main.detectionCache (Main.step st ev)))
   <= Main.inferenceCount (Main.performanceMetrics (Main.step st ev)))%N.
Proof.
  intros Hle. destruct ev as [c| |supported constructed|]; cbn [Main.step].
  - destruct (map_get (Spec.keyOf c) (Main.detectionCache st)) as [cached|] eqn:Hget.
    + destruct (detect_hit st c cached Hget) as (_ & _ & Hc & _ & _ & Hn & _).
      now rewrite Hc, Hn.
    + destruct (Main.useWebWorker st && Main.yoloWorker st) eqn:Hw.
      * destruct (Main.detectMedicineWithWorker c) as [dets|error] eqn:Hworker.
        -- destruct (detect_worker_ok st c dets Hget Hw Hworker)
             as (_ & _ & Hc & _ & _ & Hn & _).
           rewrite Hc, Hn.
           pose proof (cacheResults_grows (Spec.keyOf c) dets (Main.detectionCache st)).
           lia.
        -- destruct (detect_worker_failed st c error Hget Hw Hworker)
             as (_ & _ & Hc & _ & _ & Hn & _).
           now rewrite Hc, Hn.
      * destruct (detect_caller st c Hget Hw) as (_ & _ & _ & _ & _ & Hc).
        destruct (Main.detectMedicineMainThread c) as [dets|error].
        -- destruct Hc as [Hc Hn]. rewrite Hc, Hn.
           pose proof (cacheResults_grows (Spec.keyOf c) dets (Main.detectionCache st)).
           lia.
        -- now rewrite Hc.
  - cbn. lia.
  - unfold Main.preloadModel. destruct (Main.useWebWorker st); [|exact Hle].
    destruct (supported && constructed); exact Hle.
  - exact Hle.
Qed.

(** X9.  In every reachable state the cache holds no key twice, and it
    never holds more entries than [inferenceCount] inferences were
    counted since the last reset. *)
Theorem reachable_cache_counted (st : Main.State) :
  Spec.Reachable st ->
  NoDup (map_keys (Main.detectionCache st)) /\
  (N.of_nat (Main.cacheSize (Main.getPerformanceMetrics st))
   <= Main.inferenceCount (Main.metrics (Main.getPerformanceMetrics st)))%N.
Proof.
  intros Hst. split.
  - apply (reachable_consistent st Hst).
  - destruct Hst as [events ->]. cbn [Main.getPerformanceMetrics Main.cacheSize Main.metrics].
    assert (H : forall st0,
               (N.of_nat (map_size (Main.detectionCache st0))
                <= Main.inferenceCount (Main.performanceMetrics st0))%N ->
               (N.of_nat (map_size (Main.detectionCache (Main.run st0 events)))
                <= Main.inferenceCount (Main.performanceMetrics (Main.run st0 events)))%N).
    { induction events as [|ev events IH]; intros st0 H0; [exact H0|].
      cbn. apply IH, step_counted, H0. }
    apply H. cbn. lia.
Qed.

Lemma reachable_cache_counted_witness :
  NoDup (map_keys (Main.detectionCache (Main.run Main.initialState Sample.threeThenRepeat))).
Proof.
  refine (proj1 (reachable_cache_counted _ _)).
  exists Sample.threeThenRepeat. reflexivity.
Defined.

(* ================================================================== *)
(** * The cache key *)
(* ================================================================== *)

Section KeyFacts.

Local Open Scope string_scope.

Lemma mentions_append (c : ascii) (s t : string) :
  Spec.mentions c (s ++ t) <-> Spec.mentions c s \/ Spec.mentions c t.
Proof. induction s as [|a s IH]; cbn; [tauto|]. rewrite IH. tauto. Qed.

Lemma string_append_assoc (s t u : string) : (s ++ t) ++ u = s ++ (t ++ u).
Proof. induction s as [|a s IH]; cbn; [reflexivity|]. now rewrite IH. Qed.

(** A string is cut in one way only at the last occurrence of [c]. *)
Lemma append_split_last (c : ascii) (p1 : string) :
  forall p2 d1 d2,
    p1 ++ String c d1 = p2 ++ String c d2 ->
    ~ Spec.mentions c d1 -> ~ Spec.mentions c d2 ->
    p1 = p2 /\ d1 = d2.
Proof.
  induction p1 as [|a p1 IH]; intros [|b p2] d1 d2 H H1 H2; cbn in H.
  - injection H as ->. auto.
  - injection H as -> ->. exfalso. apply H1, mentions_append. right. now left.
  - injection H as -> <-. exfalso. apply H2, mentions_append. right. now left.
  - injection H as -> H. destruct (IH _ _ _ H H1 H2) as [-> ->]. auto.
Qed.

Lemma string_of_uint_digits (c : ascii) (d : Decimal.uint) :
  Spec.mentions c (NilEmpty.string_of_uint d) ->
  In c ["0"; "1"; "2"; "3"; "4"; "5"; "6"; "7"; "8"; "9"]%char.
Proof.
  induction d; cbn [NilEmpty.string_of_uint Spec.mentions]; intros H;
    [destruct H| ..]; (destruct H as [<-|H]; [cbn; tauto|now apply IHd]).
Qed.

Lemma digits_no_letter (c : ascii) (n : N) :
  c = "x"%char \/ c = "_"%char -> ~ Spec.mentions c (digits n).
Proof.
  intros Hc Hm. apply string_of_uint_digits in Hm.
  destruct Hc as [-> | ->]; cbn in Hm; intuition discriminate.
Qed.

Lemma digits_inj (n m : N) : digits n = digits m -> n = m.
Proof.
  unfold digits. intros H. apply Unsigned.to_uint_inj.
  assert (E : Some (N.to_uint n) = Some (N.to_uint m)).
  { rewrite <- (NilEmpty.usu (N.to_uint n)), <- (NilEmpty.usu (N.to_uint m)).
    now rewrite H. }
  now injection E.
Qed.

End KeyFacts.

(** X10.  Two images get the same cache key exactly when the first 50
    characters of their [src] agree and the width and height the key is
    built from agree: the key tells apart different dimensions and
    different short sources, and nothing beyond the 50th character. *)
Theorem generateImageCacheKey_collides (image1 image2 : Main.Image) :
  Main.generateImageCacheKey image1 = Main.generateImageCacheKey image2 <->
  substring 0 50 (Main.src image1) = substring 0 50 (Main.src image2) /\
  Spec.keyWidth image1 = Spec.keyWidth image2 /\
  Spec.keyHeight image1 = Spec.keyHeight image2.
Proof.
  unfold Main.generateImageCacheKey. fold (Spec.keyWidth image1) (Spec.keyWidth image2).
  fold (Spec.keyHeight image1) (Spec.keyHeight image2).
  set (p1 := substring 0 50 (Main.src image1)).
  set (p2 := substring 0 50 (Main.src image2)).
  split.
  - intros H.
    change ((p1 ++ String "_" (digits (Spec.keyWidth image1)
                               ++ String "x" (digits (Spec.keyHeight image1))))%string
            = (p2 ++ String "_" (digits (Spec.keyWidth image2)
                                 ++ String "x" (digits (Spec.keyHeight image2))))%string)
      in H.
    change (String "_" (digits (Spec.keyWidth image1)
                        ++ String "x" (digits (Spec.keyHeight image1))))%string
      with ((String "_" (digits (Spec.keyWidth image1)))
            ++ String "x" (digits (Spec.keyHeight image1)))%string in H.
    change (String "_" (digits (Spec.keyWidth image2)
                        ++ String "x" (digits (Spec.keyHeight image2))))%string
      with ((String "_" (digits (Spec.keyWidth image2)))
            ++ String "x" (digits (Spec.keyHeight image2)))%string in H.
    rewrite <- !string_append_assoc in H.
    apply append_split_last in H as [H Hh];
      try (apply digits_no_letter; now left).
    apply append_split_last in H as [Hp Hw];
      try (apply digits_no_letter; now right).
    split; [exact Hp|]. split; now apply digits_inj.
  - intros (-> & -> & ->). reflexivity.
Qed.

(* ================================================================== *)
(** * [loadYOLOModel] *)
(* ================================================================== *)

Lemma loaderStep_ok (ld : Main.Loader) (ev : Main.LoaderEvent) :
  Spec.loaderOk ld -> Spec.loaderOk (Main.loaderStep ld ev).
Proof.
  unfold Spec.loaderOk. destruct ld as [model loading [[|]|]]; cbn;
    intros [-> ->]; destruct ev as [[|]|[|]]; cbn; auto.
Qed.

Lemma loaderRun_ok (events : list Main.LoaderEvent) (ld : Main.Loader) :
  Spec.loaderOk ld -> Spec.loaderOk (Main.loaderRun ld events).
Proof.
  revert ld. induction events as [|ev later IH]; intros ld Hok; [exact Hok|].
  cbn. apply IH, loaderStep_ok, Hok.
Qed.

Lemma initialLoader_ok : Spec.loaderOk Main.initialLoader.
Proof. split; reflexivity. Qed.

(** Every load that was started has failed, is in flight, or has given
    the model. *)
Lemma loads_accounted_from (events : list Main.LoaderEvent) (ld : Main.Loader) :
  Spec.loaderOk ld ->
  let final := Main.loaderRun ld events in
  Spec.loadsStarted ld events
  + Nat.b2n (Main.isModelLoading ld) + Nat.b2n (Main.yoloModel ld)
  = Spec.loadsFailed ld events
    + Nat.b2n (Main.isModelLoading final) + Nat.b2n (Main.yoloModel final).
Proof.
  revert ld. induction events as [|ev later IH]; intros ld Hok; [cbn; lia|].
  pose proof (IH _ (loaderStep_ok ld ev Hok)) as Hlater.
  cbn [Main.loaderRun fold_left Spec.loadsStarted Spec.loadsFailed] in *.
  unfold Main.loaderRun in Hlater. cbn zeta in Hlater.
  revert Hlater.
  generalize (Spec.loadsStarted (Main.loaderStep ld ev) later).
  generalize (Spec.loadsFailed (Main.loaderStep ld ev) later).
  generalize (fold_left Main.loaderStep later (Main.loaderStep ld ev)).
  unfold Spec.loaderOk in Hok.
  destruct ld as [model loading [[|]|]]; cbn in Hok; destruct Hok as [-> ->];
    destruct ev as [[|]|[|]]; cbn; intros; lia.
Qed.

(** X11.  On the page's own thread the model is loaded by one load at
    a time: in every sequence of calls of [loadYOLOModel] and of
    settlements, each call of [tf.loadGraphModel] that returned a
    promise has failed, is the one load in flight, or has given the
    model, so [tf.loadGraphModel] is called at most once more than
    loads have failed; and a load is in flight exactly when
    [modelLoadPromise] is pending, the model is there exactly when it
    is fulfilled. *)
Theorem loadYOLOModel_loads_accounted (events : list Main.LoaderEvent) :
  let ld := Main.loaderRun Main.initialLoader events in
  let started := Spec.loadsStarted Main.initialLoader events in
  let failed := Spec.loadsFailed Main.initialLoader events in
  Spec.loaderOk ld /\
  started
  = failed + Nat.b2n (Main.isModelLoading ld) + Nat.b2n (Main.yoloModel ld) /\
  started <= failed + 1.
Proof.
  intros ld started failed.
  pose proof (loaderRun_ok events _ initialLoader_ok) as Hok. fold ld in Hok.
  assert (Hacc : started + 0 + 0
                 = failed + Nat.b2n (Main.isModelLoading ld)
                   + Nat.b2n (Main.yoloModel ld))
    by exact (loads_accounted_from events _ initialLoader_ok).
  split; [exact Hok|]. split; [lia|].
  unfold Spec.loaderOk in Hok.
  destruct (Main.modelLoadPromise ld) as [[|]|]; destruct Hok as [Hm Hl];
    rewrite Hm, Hl in Hacc; cbn in Hacc; lia.
Qed.

(** X12.  What a call of [loadYOLOModel] does, in every state the
    script can be in, read off the two flags: with the model it returns
    the model; with a load in flight it returns the promise of that
    load and starts none; otherwise it calls [tf.loadGraphModel], and
    awaits it or, if the call throws, throws its own error and leaves
    the variables as they were. *)
Theorem loadYOLOModel_call_cases (events : list Main.LoaderEvent) (loadThrows : bool) :
  let ld := Main.loaderRun Main.initialLoader events in
  Main.loadYOLOModel ld loadThrows
  = if Main.yoloModel ld then (ld, Main.ReturnsModel)
    else if Main.isModelLoading ld then (ld, Main.ReturnsPromise)
    else if loadThrows then (ld, Main.ThrowsLoadError Main.loadError)
    else ({| Main.yoloModel := false; Main.isModelLoading := true;
             Main.modelLoadPromise := Some Main.Pending |}, Main.AwaitsLoad).
Proof.
  intros ld.
  pose proof (loaderRun_ok events _ initialLoader_ok) as Hok. fold ld in Hok.
  unfold Spec.loaderOk in Hok. unfold Main.loadYOLOModel.
  destruct ld as [model loading [[|]|]]; cbn in *; destruct Hok as [-> ->];
    destruct loadThrows; reflexivity.
Qed.

Lemma loaded_stays (events : list Main.LoaderEvent) (ld : Main.Loader) :
  Spec.loaderOk ld -> Main.yoloModel ld = true ->
  Main.loaderRun ld events = ld /\ Spec.loadsStarted ld events = 0.
Proof.
  induction events as [|ev later IH]; intros Hok Hm; [split; reflexivity|].
  assert (Hstep : Main.loaderStep ld ev = ld).
  { unfold Spec.loaderOk in Hok.
    destruct ld as [model loading [[|]|]]; cbn in *; destruct Hok as [-> ->];
      try discriminate; destruct ev as [[|]|[|]]; reflexivity. }
  cbn [Main.loaderRun fold_left Spec.loadsStarted]. rewrite Hstep.
  destruct (IH Hok Hm) as [Hrun Hnone]. split; [exact Hrun|]. rewrite Hnone.
  destruct ev as [loadThrows|loaded]; [|reflexivity].
  unfold Main.loadYOLOModel. rewrite Hm. reflexivity.
Qed.

(** X13.  Once the model is loaded it stays: no later call and no later
    settlement changes [yoloModel], [isModelLoading] or
    [modelLoadPromise], and no later call starts a load. *)
Theorem loadYOLOModel_loaded_stays (before later : list Main.LoaderEvent) :
  let ld := Main.loaderRun Main.initialLoader before in
  Main.yoloModel ld = true ->
  Main.loaderRun ld later = ld /\
  Spec.loadsStarted ld later = 0 /\
  forall loadThrows, Main.loadYOLOModel ld loadThrows = (ld, Main.ReturnsModel).
Proof.
  intros ld Hm.
  pose proof (loaderRun_ok before _ initialLoader_ok) as Hok. fold ld in Hok.
  destruct (loaded_stays later ld Hok Hm) as [Hrun Hnone].
  split; [exact Hrun|]. split; [exact Hnone|].
  intros loadThrows. unfold Main.loadYOLOModel. now rewrite Hm.
Qed.

Lemma loadYOLOModel_loaded_stays_witness :
  Main.loaderRun (Main.loaderRun Main.initialLoader Sample.loaderEvents)
    [Main.Called true; Main.Settled false; Main.Called false]
  = Main.loaderRun Main.initialLoader Sample.loaderEvents.
Proof.
  refine (proj1 (loadYOLOModel_loaded_stays Sample.loaderEvents
                   [Main.Called true; Main.Settled false; Main.Called false] _)).
  reflexivity.
Defined.

(* ================================================================== *)
(** * The worker's message handler *)
(* ================================================================== *)

Section WorkerProtocol.

Lemma count_app (A : Type) (kind : A -> bool) (l1 l2 : list A) :
  Spec.count kind (l1 ++ l2) = Spec.count kind l1 + Spec.count kind l2.
Proof. unfold Spec.count. now rewrite filter_app, length_app. Qed.

Lemma count_cons (A : Type) (kind : A -> bool) (a : A) (l : list A) :
  Spec.count kind (a :: l) = Nat.b2n (kind a) + Spec.count kind l.
Proof. unfold Spec.count. cbn. destruct (kind a); reflexivity. Qed.

(** One event: a [load] request is answered or becomes the load in
    flight, the load in flight is answered when it settles, and an
    [infer] or [status] request is answered at once. *)
Lemma worker_step_accounted (st : Worker.State) (ev : Worker.Event) :
  let st' := fst (Worker.step st ev) in
  let posted := snd (Worker.step st ev) in
  Spec.count Spec.isLoaded posted + Nat.b2n (Worker.isModelLoading st')
  = Nat.b2n (Spec.asksLoad ev) + Nat.b2n (Worker.isModelLoading st) /\
  Spec.count Spec.isResult posted = Nat.b2n (Spec.asksInfer ev) /\
  Spec.count Spec.isStatusReply posted = Nat.b2n (Spec.asksStatus ev).
Proof.
  destruct st as [[|] [|]];
    destruct ev as [[|predicted w h| |type] [message|]|fraction|[message|]];
    cbn; auto.
Qed.

Lemma worker_run_cons (st : Worker.State) (ev : Worker.Event) (later : list Worker.Event) :
  Worker.run st (ev :: later)
  = (fst (Worker.run (fst (Worker.step st ev)) later),
     snd (Worker.step st ev) ++ snd (Worker.run (fst (Worker.step st ev)) later)).
Proof.
  cbn [Worker.run]. destruct (Worker.step st ev) as [st1 posted1]. cbn [fst snd].
  destruct (Worker.run st1 later) as [st2 posted2]. reflexivity.
Qed.

Lemma worker_run_accounted (events : list Worker.Event) (st : Worker.State) :
  let st' := fst (Worker.run st events) in
  let posted := snd (Worker.run st events) in
  Spec.count Spec.isLoaded posted + Nat.b2n (Worker.isModelLoading st')
  = Spec.count Spec.asksLoad events + Nat.b2n (Worker.isModelLoading st) /\
  Spec.count Spec.isResult posted = Spec.count Spec.asksInfer events /\
  Spec.count Spec.isStatusReply posted = Spec.count Spec.asksStatus events.
Proof.
  revert st. induction events as [|ev later IH]; intros st.
  - cbn. auto.
  - rewrite worker_run_cons. cbn [fst snd]. rewrite !count_app, !count_cons.
    destruct (worker_step_accounted st ev) as (Hl & Hr & Hs).
    destruct (IH (fst (Worker.step st ev))) as (Hl' & Hr' & Hs').
    cbn zeta in *. split; [lia|]. split; lia.
Qed.

(** The model and a load in flight exclude each other. *)
Lemma worker_step_exclusive (st : Worker.State) (ev : Worker.Event) :
  Worker.yoloModel st && Worker.isModelLoading st = false ->
  Worker.yoloModel (fst (Worker.step st ev))
  && Worker.isModelLoading (fst (Worker.step st ev)) = false.
Proof.
  destruct st as [[|] [|]]; try discriminate; intros _;
    destruct ev as [[|predicted w h| |type] [message|]|fraction|[message|]];
    reflexivity.
Qed.

Lemma worker_run_exclusive (events : list Worker.Event) (st : Worker.State) :
  Worker.yoloModel st && Worker.isModelLoading st = false ->
  Worker.yoloModel (fst (Worker.run st events))
  && Worker.isModelLoading (fst (Worker.run st events)) = false.
Proof.
  revert st. induction events as [|ev later IH]; intros st Hex; [exact Hex|].
  rewrite worker_run_cons. cbn [fst]. apply IH, worker_step_exclusive, Hex.
Qed.


(** Without the event that gives the model, the worker has none, and
    answers every [infer] request with ['Model not loaded']. *)
Lemma worker_without_model (events : list Worker.Event) (st : Worker.State) :
  forallb (fun ev => negb (Spec.givesModel ev)) events = true ->
  Worker.yoloModel st = false ->
  Worker.yoloModel (fst (Worker.run st events)) = false /\
  forall outcome, In (Worker.Result outcome) (snd (Worker.run st events)) ->
                  outcome = Throw "Model not loaded"%string.
Proof.
  revert st. induction events as [|ev later IH]; intros st Hnone Hm.
  - split; [exact Hm|]. intros outcome [].
  - cbn [forallb] in Hnone. apply andb_prop in Hnone. destruct Hnone as [Hev Hlater].
    rewrite worker_run_cons. cbn [fst snd].
    assert (Hstep : Worker.yoloModel (fst (Worker.step st ev)) = false /\
                    forall outcome, In (Worker.Result outcome) (snd (Worker.step st ev)) ->
                                    outcome = Throw "Model not loaded"%string).
    { destruct st as [model [|]]; cbn in Hm; subst model;
        destruct ev as [[|predicted w h| |type] [message|]|fraction|[message|]];
        cbn in Hev |- *; try discriminate; (split; [reflexivity|]);
        intros outcome Hin; cbn in Hin;
        repeat match goal with
          | H : _ \/ _ |- _ => destruct H
          | H : False |- _ => destruct H
          end;
        try discriminate;
        match goal with
        | H : Worker.Result _ = Worker.Result _ |- _ => injection H as <-; reflexivity
        end. }
    destruct Hstep as [Hst Hposted].
    destruct (IH _ Hlater Hst) as [IHst IHposted].
    split; [exact IHst|]. intros outcome Hin. apply in_app_or in Hin.
    destruct Hin; auto.
Qed.

End WorkerProtocol.

(** X14.  The worker answers every request once: over any sequence of
    messages, progress callbacks and settlements, it has posted one
    [loaded] message per [load] request, except for the one request
    whose load is still in flight, one [result] message per [infer]
    request and one [status] message per [status] request; and it never
    holds the model and loads at the same time. *)
Theorem worker_replies_accounted (events : list Worker.Event) :
  let st := fst (Worker.run Worker.initialState events) in
  let posted := snd (Worker.run Worker.initialState events) in
  Spec.count Spec.isLoaded posted + Nat.b2n (Worker.isModelLoading st)
  = Spec.count Spec.asksLoad events /\
  Spec.count Spec.isResult posted = Spec.count Spec.asksInfer events /\
  Spec.count Spec.isStatusReply posted = Spec.count Spec.asksStatus events /\
  Worker.yoloModel st && Worker.isModelLoading st = false.
Proof.
  intros st posted.
  destruct (worker_run_accounted events Worker.initialState) as (Hl & Hr & Hs).
  cbn zeta in *. fold st posted in Hl, Hr, Hs.
  split; [cbn in Hl; lia|]. split; [exact Hr|]. split; [exact Hs|].
  apply worker_run_exclusive. reflexivity.
Qed.



(** X16.  A scan that reaches the worker before its model is loaded
    turns the worker off for good: as long as the worker's load has not
    given the model, whatever else the worker was sent, it answers the
    request with ['Model not loaded']; [detectMedicine] then runs the
    image on the page's own thread, sets [useWebWorker] to [false], and
    no later event turns it on again, also not the worker finishing its
    load. *)
Theorem scan_before_worker_loaded (workerEvents : list Worker.Event)
        (st : Main.State) (c : Main.Call) :
  forallb (fun ev => negb (Spec.givesModel ev)) workerEvents = true ->
  Main.workerModelLoaded c
  = Worker.yoloModel (fst (Worker.run Worker.initialState workerEvents)) ->
  map_get (Spec.keyOf c) (Main.detectionCache st) = None ->
  Main.useWebWorker st && Main.yoloWorker st = true ->
  let out := Main.detectMedicine st c in
  Main.attempts out = [Main.WorkerContext; Main.CallerContext] /\
  Main.result out = Main.detectMedicineMainThread c /\
  forall later, Main.useWebWorker (Main.run (Main.final out) later) = false.
Proof.
  intros Hnone Hlink Hmiss Hw out.
  destruct (worker_without_model workerEvents Worker.initialState Hnone eq_refl)
    as [Hmodel _].
  rewrite Hmodel in Hlink.
  assert (Hfail : exists error, Main.detectMedicineWithWorker c = Throw error).
  { unfold Main.detectMedicineWithWorker, Worker.runInference. cbn.
    rewrite Hlink. destruct (Main.dispatch c); cbn; eauto. }
  destruct Hfail as [error Hfail].
  destruct (detect_worker_failed st c error Hmiss Hw Hfail)
    as (Hr & Ha & _ & Hoff & _).
  fold out in Hr, Ha, Hoff.
  split; [exact Ha|]. split; [exact Hr|].
  intros later. apply run_useWebWorker, Hoff.
Qed.

Lemma scan_before_worker_loaded_witness :
  Main.attempts (Main.detectMedicine Sample.workerReady Sample.earlyCall)
  = [Main.WorkerContext; Main.CallerContext].
Proof.
  refine (proj1 (scan_before_worker_loaded Sample.workerLoading
                   Sample.workerReady Sample.earlyCall _ _ _ _));
    reflexivity.
Defined.

(* ================================================================== *)
(** * [resizeImageIfNeeded] *)
(* ================================================================== *)

Section IntegerFacts.

Lemma shr_1_nonneg (mrs : shr_record) : (0 <= shr_m mrs)%Z -> (0 <= shr_m (shr_1 mrs))%Z.
Proof.
  destruct mrs as [[|[p|p|]|p] r s]; cbn; intros H; try lia.
Qed.

Lemma iter_shr_1_nonneg (p : positive) :
  forall mrs, (0 <= shr_m mrs)%Z -> (0 <= shr_m (iter_pos shr_1 p mrs))%Z.
Proof.
  induction p as [p IH|p IH|]; intros mrs H; cbn.
  - apply IH, IH, shr_1_nonneg, H.
  - apply IH, IH, H.
  - apply shr_1_nonneg, H.
Qed.

Lemma shr_fexp_nonneg (m e : Z) (l : location) :
  (0 <= m)%Z -> (0 <= shr_m (fst (shr_fexp prec emax m e l)))%Z.
Proof.
  intros H. unfold shr_fexp, shr.
  assert (H0 : (0 <= shr_m (shr_record_of_loc m l))%Z)
    by (destruct l as [|[| |]]; exact H).
  destruct (fexp prec emax (Zdigits2 m + e) - e)%Z; cbn [fst]; try exact H0.
  apply iter_shr_1_nonneg, H0.
Qed.

Lemma round_nearest_even_nonneg (m : Z) (l : location) :
  (0 <= m)%Z -> (0 <= round_nearest_even m l)%Z.
Proof.
  intros H. destruct l as [|[| |]]; cbn; try lia. destruct (Z.even m); lia.
Qed.

Lemma binary_round_aux_not_nan (sx : bool) (mx ex : Z) (lx : location) :
  (0 <= mx)%Z -> is_nan (binary_round_aux prec emax sx mx ex lx) = false.
Proof.
  intros H. unfold binary_round_aux.
  pose proof (shr_fexp_nonneg mx ex lx H) as H1.
  destruct (shr_fexp prec emax mx ex lx) as [mrs' e']. cbn [fst] in H1.
  pose proof (shr_fexp_nonneg _ e' loc_Exact
                (round_nearest_even_nonneg _ (loc_of_shr_record mrs') H1)) as H2.
  destruct (shr_fexp prec emax _ e' loc_Exact) as [mrs'' e'']. cbn [fst] in H2.
  destruct (shr_m mrs'') as [|m|m]; [reflexivity| |lia].
  destruct (e'' <=? emax - prec)%Z; reflexivity.
Qed.

(** An integer is a number, never NaN. *)
Lemma of_Z_not_nan (z : Z) : is_nan (of_Z z) = false.
Proof.
  unfold of_Z, binary_normalize, binary_round.
  destruct z as [|m|m]; [reflexivity| |];
    destruct (shl_align _ _ _) as [mz ez]; apply binary_round_aux_not_nan; lia.
Qed.

Lemma of_N_not_nan (n : N) : is_nan (of_N n) = false.
Proof. apply of_Z_not_nan. Qed.

(** Between two numbers that are not NaN, "not at most" is "greater". *)
Lemma not_leb_ltb (a b : num) :
  is_nan a = false -> is_nan b = false -> SFleb a b = false -> SFltb b a = true.
Proof.
  unfold SFltb, SFleb. intros Ha Hb. rewrite (SFcompare_swap a b).
  destruct (SFcompare a b) as [[| |]|] eqn:E; cbn; try discriminate; try reflexivity.
  destruct a, b; cbn in *; try discriminate;
    repeat match goal with s : bool |- _ => destruct s end; discriminate.
Qed.

End IntegerFacts.

(** X17.  With limits that are numbers, [resizeImageIfNeeded] resizes
    exactly the images that have a size and exceed a limit, and what it
    draws touches the limits: the new width is [maxWidth] or the new
    height is [maxHeight].  When the height scaled to [maxWidth] still
    exceeds [maxHeight] the image is drawn [maxHeight] high and
    [width * maxHeight / height] wide; otherwise an image wider than
    [maxWidth] is drawn [maxWidth] wide and
    [height * maxWidth / width] high. *)
Theorem resizeImageIfNeeded_touches_limit (image : Main.Image) (maxWidth maxHeight : num) :
  is_nan maxWidth = false ->
  is_nan maxHeight = false ->
  let width := orElse (Main.naturalWidth image) (Main.img_width image) in
  let height := orElse (Main.naturalHeight image) (Main.img_height image) in
  match Main.resizeImageIfNeeded image maxWidth maxHeight with
  | None =>
      width = 0%N \/ height = 0%N \/
      ((of_N width >? maxWidth)%js = false /\ (of_N height >? maxHeight)%js = false)
  | Some (newWidth, newHeight) =>
      width <> 0%N /\ height <> 0%N /\
      ((of_N width >? maxWidth)%js = true \/ (of_N height >? maxHeight)%js = true) /\
      ((newWidth = maxWidth /\ newHeight = (of_N height * maxWidth / of_N width)%js /\
        (newHeight >? maxHeight)%js = false)
       \/
       (newHeight = maxHeight /\ newWidth = (of_N width * maxHeight / of_N height)%js))
  end.
Proof.
  intros Hmw Hmh width height. unfold Main.resizeImageIfNeeded.
  fold width height.
  destruct (N.eqb_spec width 0) as [Hw|Hw]; [cbn; auto|].
  destruct (N.eqb_spec height 0) as [Hh|Hh]; [cbn; auto|].
  cbn [orb].
  pose proof (of_N_not_nan width) as Hwn. pose proof (of_N_not_nan height) as Hhn.
  destruct (SFleb (of_N width) maxWidth) eqn:Elw.
  - destruct (SFleb (of_N height) maxHeight) eqn:Elh; cbn [andb].
    + right. right. unfold gt. split.
      * destruct (SFltb maxWidth (of_N width)) eqn:E; [|reflexivity].
        pose proof (ltb_leb_trans _ _ _ E Elw) as Hc. now rewrite ltb_irrefl in Hc.
      * destruct (SFltb maxHeight (of_N height)) eqn:E; [|reflexivity].
        pose proof (ltb_leb_trans _ _ _ E Elh) as Hc. now rewrite ltb_irrefl in Hc.
    + pose proof (not_leb_ltb _ _ Hhn Hmh Elh) as Hgt.
      assert (Hngt : (of_N width >? maxWidth)%js = false).
      { unfold gt. destruct (SFltb maxWidth (of_N width)) eqn:E; [|reflexivity].
        pose proof (ltb_leb_trans _ _ _ E Elw) as Hc. now rewrite ltb_irrefl in Hc. }
      change (SFltb maxHeight (of_N height)) with (of_N height >? maxHeight)%js in Hgt.
      rewrite !Hngt. cbn [snd]. rewrite !Hgt.
      split; [exact Hw|]. split; [exact Hh|]. split; [right; reflexivity|].
      right. split; reflexivity.
  - cbn [andb].
    assert (Hgt : (of_N width >? maxWidth)%js = true)
      by exact (not_leb_ltb _ _ Hwn Hmw Elw).
    rewrite !Hgt. cbn [snd].
    destruct ((of_N height * maxWidth / of_N width) >? maxHeight)%js eqn:E2.
    + split; [exact Hw|]. split; [exact Hh|]. split; [left; reflexivity|].
      right. split; reflexivity.
    + split; [exact Hw|]. split; [exact Hh|]. split; [left; reflexivity|].
      left. split; [reflexivity|]. split; [reflexivity|exact E2].
Qed.

Lemma resizeImageIfNeeded_touches_limit_witness :
  is_nan (of_Z 1920) = false /\
  is_nan (of_Z 1080) = false /\
  match Main.resizeImageIfNeeded Sample.largePhoto (of_Z 1920) (of_Z 1080) with
  | None => False
  | Some (newWidth, newHeight) =>
      (newWidth = of_Z 1920 /\
       newHeight = (of_N 3000 * of_Z 1920 / of_N 4000)%js /\
       (newHeight >? of_Z 1080)%js = false)
      \/
      (newHeight = of_Z 1080 /\ newWidth = (of_N 4000 * of_Z 1080 / of_N 3000)%js)
  end.
Proof.
  split; [reflexivity|]. split; [reflexivity|].
  pose proof (resizeImageIfNeeded_touches_limit Sample.largePhoto (of_Z 1920) (of_Z 1080)
                eq_refl eq_refl) as H.
  cbv zeta in H.
  destruct (Main.resizeImageIfNeeded Sample.largePhoto (of_Z 1920) (of_Z 1080))
    as [[newWidth newHeight]|].
  - destruct H as (_ & _ & _ & H). exact H.
  - destruct H as [H|[H|[H _]]]; discriminate.
Defined.

(* ================================================================== *)
(** * Labels and [sendToBackend] *)
(* ================================================================== *)

(** What either script returns for an output with at most ten class
    rows has its classes inside [CLASS_LABELS]. *)
Lemma processWith_class_bound
      (nonMaxSuppression : list Box -> list num -> num -> nat -> completion (list nat))
      (features : list (list num)) (imgWidth imgHeight : num)
      (finals : list (option Detection)) :
  4 <= length features ->
  length features <= 4 + length Main.CLASS_LABELS ->
  Shared.processWith nonMaxSuppression MODEL_CONFIG [features] imgWidth imgHeight
  = Normal finals ->
  forall d, In (Some d) finals -> class d < length Main.CLASS_LABELS.
Proof.
  intros Hrows Hclasses Hrun d Hd.
  destruct (processWith_selects _ _ _ _ _ _ Hrun) as (features' & dets & Hf & Hdec & Hsel).
  cbn in Hf. injection Hf as <-. apply Hsel in Hd.
  unfold Shared.decode in Hdec.
  destruct (nth_error features 0) as [row0|]; [|discriminate].
  apply (decodeFrom_In _ _ _ _ _ _ _ _ Hdec) in Hd.
  destruct Hd as [[]|(i & _ & Hpush)].
  destruct (decoded_from_anchor MODEL_CONFIG features imgWidth imgHeight i d
              eq_refl Hpush) as (cx & cy & w & h & _ & _ & _ & _ & _ & _ & _ & _ & Hc & _).
  lia.
Qed.

Lemma label_of_class (d : Detection) :
  class d < length Main.CLASS_LABELS ->
  exists label,
    nth_error Main.CLASS_LABELS (class d) = Some label /\
    Main.medicineOf d = label /\ Main.className d = label /\
    In label Main.CLASS_LABELS.
Proof.
  intros Hc. unfold Main.medicineOf, Main.className.
  destruct (nth_error Main.CLASS_LABELS (class d)) as [label|] eqn:E.
  - exists label. split; [reflexivity|]. split; [reflexivity|]. split; [reflexivity|].
    eapply nth_error_In, E.
  - apply nth_error_None in E. lia.
Qed.

(** With no [undefined] entry the payload is built, one entry per
    detection and in the same order. *)
Lemma payloadDetections_defined (detections : Main.Detections) :
  Forall (fun entry => entry <> None) detections ->
  exists entries,
    Main.payloadDetections detections = Normal entries /\
    length entries = length detections /\
    forall e, In e entries ->
              exists d, In (Some d) detections /\ Main.medicine e = Main.medicineOf d /\
                        Main.confidence e = score d /\ Main.bbox e = Shared.boxOf d.
Proof.
  induction detections as [|[d|] later IH]; intros Hall.
  - exists []. split; [reflexivity|]. split; [reflexivity|]. intros e [].
  - inversion Hall as [|? ? _ Hlater]; subst.
    destruct (IH Hlater) as (entries & Hrun & Hlen & Hin).
    cbn [Main.payloadDetections]. rewrite Hrun. cbn [bind]. eexists.
    split; [reflexivity|]. split; [cbn; now rewrite Hlen|].
    intros e [<-|He].
    + exists d. cbn. auto.
    + destruct (Hin e He) as (d' & Hd' & Hprops). exists d'. cbn. auto.
  - inversion Hall as [|? ? Hnone _]. now destruct Hnone.
Qed.

(** X18.  [sendToBackend] resolves whenever no detection is
    [undefined], whatever the backend does: with the parsed body when
    [fetch] resolves with an [ok] response whose body parses, and with
    the mock record in every other case, whose [medicine] is
    ['Unknown'] for no detection and [CLASS_LABELS[detections[0].class]]
    otherwise, [undefined] for a class outside the table. *)
Theorem sendToBackend_resolves (J : Type) (detections : Main.Detections)
        (fetched : completion (Main.Response J)) :
  Forall (fun entry => entry <> None) detections ->
  let mock :=
    Main.Mock J
      match detections with
      | [] => Some "Unknown"%string
      | Some d :: _ => nth_error Main.CLASS_LABELS (class d)
      | None :: _ => None
      end in
  Main.sendToBackend detections fetched
  = Normal
      match fetched with
      | Normal response =>
          if Main.ok response then
            match Main.json response with
            | Normal body => Main.FromBackend body
            | Throw _ => mock
            end
          else mock
      | Throw _ => mock
      end.
Proof.
  intros Hall mock. unfold Main.sendToBackend.
  destruct (payloadDetections_defined detections Hall) as (entries & -> & _).
  cbn [bind].
  assert (Hmock : match detections with
                  | [] => Normal (Main.Mock J (Some "Unknown"%string))
                  | Some d :: _ =>
                      Normal (Main.Mock J (nth_error Main.CLASS_LABELS (class d)))
                  | None :: _ => Throw TypeError
                  end = Normal mock).
  { destruct detections as [|[d|] later]; try reflexivity.
    inversion Hall as [|? ? Hnone _]. now destruct Hnone. }
  destruct fetched as [response|error]; cbn [bind]; [|exact Hmock].
  destruct (Main.ok response); [|exact Hmock].
  destruct (Main.json response) as [body|error]; cbn [bind]; [reflexivity|exact Hmock].
Qed.

Lemma sendToBackend_resolves_witness :
  Main.sendToBackend
    [Some {| det_x := of_Z 256; det_y := of_Z 192; det_width := of_Z 128;
             det_height := of_Z 96; score := dec 9 1; class := 2 |}]
    (@Throw (Main.Response unit) "Failed to fetch")
  = Normal (Main.Mock unit (Some "cetirizine"%string)).
Proof.
  refine (sendToBackend_resolves unit
            [Some {| det_x := of_Z 256; det_y := of_Z 192; det_width := of_Z 128;
                     det_height := of_Z 96; score := dec 9 1; class := 2 |}]
            (Throw "Failed to fetch") _).
  repeat constructor; discriminate.
Defined.

(** X19.  Every detection of a model with at most ten classes has a
    name: for a raw output with its four box rows and no more class
    rows than [CLASS_LABELS] has labels, each detection that
    [processYOLOOutput] returns, in either script, has its class inside
    the table, so the text above its box and its payload entry carry
    the label, never ['Class N'] or ['Unknown N']; the payload has one
    entry per detection; and the mock record names a label, or
    ['Unknown'] when nothing was detected. *)
Theorem detections_are_labelled (features : list (list num)) (imgWidth imgHeight : num)
        (finals : Main.Detections) :
  4 <= length features ->
  length features <= 4 + length Main.CLASS_LABELS ->
  Main.processYOLOOutput [features] imgWidth imgHeight = Normal finals \/
  Worker.processYOLOOutput [features] imgWidth imgHeight = Normal finals ->
  (forall d, In (Some d) finals ->
             exists label,
               nth_error Main.CLASS_LABELS (class d) = Some label /\
               Main.medicineOf d = label /\ Main.className d = label) /\
  (exists entries,
      Main.payloadDetections finals = Normal entries /\
      length entries = length finals /\
      forall e, In e entries -> In (Main.medicine e) Main.CLASS_LABELS) /\
  (forall (J : Type) (fetched : completion (Main.Response J)),
      exists r, Main.sendToBackend finals fetched = Normal r /\
                forall name, r = Main.Mock J name ->
                             exists label, name = Some label /\
                                           (In label Main.CLASS_LABELS \/
                                            finals = [] /\ label = "Unknown"%string)).
Proof.
  intros Hrows Hclasses Hrun.
  assert (Hbound : forall d, In (Some d) finals -> class d < length Main.CLASS_LABELS).
  { destruct Hrun as [Hrun|Hrun];
      exact (processWith_class_bound _ features imgWidth imgHeight finals
               Hrows Hclasses Hrun). }
  assert (Hdefined : Forall (fun entry => entry <> None) finals).
  { assert (Hsome : forall entry, In entry finals -> entry <> None).
    { destruct (decode_total MODEL_CONFIG features imgWidth imgHeight Hrows)
        as [dets Hdec].
      destruct Hrun as [Hrun|Hrun].
      - destruct (processWith_returns Main.nonMaxSuppression MODEL_CONFIG features
                    imgWidth imgHeight dets) as (finals' & Hrun' & _ & _ & Hall);
          [|exact Hdec|].
        + intros boxes scores Hlen.
          destruct (main_nms_returns boxes scores (iouThreshold MODEL_CONFIG)
                      (maxDetections MODEL_CONFIG) Hlen) as [selected Hsel].
          exists selected. split; [exact Hsel|]. rewrite main_nms_roundsWith in Hsel.
          exact (selection_shape boxes scores _ _ _ selected
                   (main_prune_pruned boxes _) Hsel).
        + unfold Main.processYOLOOutput in Hrun. rewrite Hrun in Hrun'.
          injection Hrun' as <-. intros entry Hin.
          destruct (Hall entry Hin) as (d & -> & _). discriminate.
      - destruct (processWith_returns Worker.nonMaxSuppression MODEL_CONFIG features
                    imgWidth imgHeight dets) as (finals' & Hrun' & _ & _ & Hall);
          [|exact Hdec|].
        + intros boxes scores Hlen.
          destruct (worker_nms_returns boxes scores (iouThreshold MODEL_CONFIG)
                      (maxDetections MODEL_CONFIG) Hlen) as [selected Hsel].
          exists selected. split; [exact Hsel|]. rewrite worker_nms_roundsWith in Hsel.
          exact (selection_shape boxes scores _ _ _ selected
                   (worker_prune_pruned boxes _) Hsel).
        + unfold Worker.processYOLOOutput in Hrun. rewrite Hrun in Hrun'.
          injection Hrun' as <-. intros entry Hin.
          destruct (Hall entry Hin) as (d & -> & _). discriminate. }
    apply Forall_forall. exact Hsome. }
  split; [|split].
  - intros d Hd. destruct (label_of_class d (Hbound d Hd)) as (label & H1 & H2 & H3 & _).
    exists label. auto.
  - destruct (payloadDetections_defined finals Hdefined) as (entries & Hp & Hlen & Hin).
    exists entries. split; [exact Hp|]. split; [exact Hlen|].
    intros e He. destruct (Hin e He) as (d & Hd & -> & _).
    destruct (label_of_class d (Hbound d Hd)) as (label & _ & -> & _ & Hl). exact Hl.
  - intros J fetched. unfold Main.sendToBackend.
    destruct (payloadDetections_defined finals Hdefined) as (entries & -> & _).
    cbn [bind].
    assert (Hmock : exists label,
               match finals with
               | [] => Normal (Main.Mock J (Some "Unknown"%string))
               | Some d :: _ =>
                   Normal (Main.Mock J (nth_error Main.CLASS_LABELS (class d)))
               | None :: _ => Throw TypeError
               end = Normal (Main.Mock J (Some label)) /\
               (In label Main.CLASS_LABELS \/ finals = [] /\ label = "Unknown"%string)).
    { destruct finals as [|[d|] later].
      - exists "Unknown"%string. auto.
      - destruct (label_of_class d (Hbound d (or_introl eq_refl)))
          as (label & -> & _ & _ & Hl).
        exists label. auto.
      - inversion Hdefined as [|? ? Hnone _]. now destruct Hnone. }
    destruct Hmock as (label & Hmock & Hlabel).
    assert (Hm : forall name, Main.Mock J (Some label) = Main.Mock J name ->
                              exists label0, name = Some label0 /\
                                (In label0 Main.CLASS_LABELS \/
                                 finals = [] /\ label0 = "Unknown"%string)).
    { intros name Heq. injection Heq as <-. exists label. auto. }
    destruct fetched as [response|error]; cbn [bind].
    + destruct (Main.ok response).
      * destruct (Main.json response) as [body|error]; cbn [bind].
        -- eexists. split; [reflexivity|]. intros name Heq. discriminate.
        -- rewrite Hmock. eexists. split; [reflexivity|exact Hm].
      * rewrite Hmock. eexists. split; [reflexivity|exact Hm].
    + rewrite Hmock. eexists. split; [reflexivity|exact Hm].
Qed.

Lemma detections_are_labelled_witness :
  exists entries,
    Main.payloadDetections
      [Some {| det_x := of_Z 256; det_y := of_Z 192; det_width := of_Z 128;
               det_height := of_Z 96; score := dec 9 1; class := 0 |}]
    = Normal entries /\
    length entries = 1 /\
    forall e, In e entries -> In (Main.medicine e) Main.CLASS_LABELS.
Proof.
  refine (proj1 (proj2 (detections_are_labelled (nth 0 Sample.threeAnchors [])
                          (of_Z 640) (of_Z 480) _ _ _ _))).
  - simpl. lia.
  - simpl. lia.
  - right. vm_compute. reflexivity.
Defined.
